(** * CrowdfundingPlatformV2: shallow embedding of the campaign ledger

    The contract [CrowdfundingPlatformV2] (Solidity ^0.8.19) keeps a registry
    of campaigns, a ledger of contributions per (campaign, backer), and the
    bookkeeping of a weighted vote.  This file embeds its storage and its
    external functions as Rocq functions over an explicit contract state, and
    proves properties of the ledger, the vote and the disbursement.

    Conventions of the embedding:
    - [uint256] and [address] values are [N]; Solidity 0.8 arithmetic is
      checked, so [+], [-] and [*] on storage are written with an explicit
      overflow test that ends the call with [Panic 0x11];
    - a [mapping] is a [gmap] read with the type's zero value as default;
    - a call either returns [Ok] with the new state and the list of ether
      transfers it made, or fails and leaves the state as it was;
    - events do not touch storage and are left out. *)

From stdpp Require Import base numbers strings list gmap fin_maps.
From Stdlib Require Import NArith Lia.

Local Open Scope N_scope.

(** ** Machine integers and call results *)

Definition UINT256_MODULUS : N := 2 ^ 256.
Definition ADDRESS_MODULUS : N := 2 ^ 160.

Definition is_uint256 (x : N) : Prop := x < UINT256_MODULUS.
Definition is_address (x : N) : Prop := x < ADDRESS_MODULUS.

Inductive result (A : Type) : Type :=
| Ok (a : A)
| Revert (reason : string)
| Panic (code : N)
| TransferFailed.
Arguments Ok {A} a.
Arguments Revert {A} reason.
Arguments Panic {A} code.
Arguments TransferFailed {A}.

Global Instance result_ret : MRet result := fun A a => Ok a.
Global Instance result_bind : MBind result := fun A B k r =>
  match r with
  | Ok a => k a
  | Revert s => Revert s
  | Panic c => Panic c
  | TransferFailed => TransferFailed
  end.

Definition require (cond : bool) (reason : string) : result unit :=
  if cond then Ok tt else Revert reason.

(** Panic codes of the Solidity compiler. *)
Definition PANIC_ARITH : N := 17.   (* 0x11: arithmetic overflow or underflow *)
Definition PANIC_INDEX : N := 50.   (* 0x32: array index out of bounds *)

Definition checked_add (a b : N) : result N :=
  if a + b <? UINT256_MODULUS then Ok (a + b) else Panic PANIC_ARITH.
Definition checked_sub (a b : N) : result N :=
  if b <=? a then Ok (a - b) else Panic PANIC_ARITH.
Definition checked_mul (a b : N) : result N :=
  if a * b <? UINT256_MODULUS then Ok (a * b) else Panic PANIC_ARITH.

(** ** Enums and structs *)

Inductive FundingMode : Type := Donation | Debit | Reward | Equity.
Inductive CampaignStatus : Type := Active | Completed | Expired | UnderVoting | Failed.

Global Instance FundingMode_eq_dec : EqDecision FundingMode.
Proof. solve_decision. Defined.
Global Instance CampaignStatus_eq_dec : EqDecision CampaignStatus.
Proof. solve_decision. Defined.

(** [uint256(mode)] and [FundingMode(i)]. *)
Definition modeIndex (m : FundingMode) : nat :=
  match m with Donation => 0 | Debit => 1 | Reward => 2 | Equity => 3 end%nat.
Definition modeOfIndex (i : nat) : FundingMode :=
  match i with 0 => Donation | 1 => Debit | 2 => Reward | _ => Equity end%nat.

Record Campaign : Type := mkCampaign {
  creator : N;
  name : string;
  description : string;
  targetAmount : N;
  deadline : N;
  originalDeadline : N;
  raisedAmount : N;
  fundsReleased : bool;
  driveLink : string;
  allowedModes : list FundingMode;
  backersCount : N;
  votingDeadline : N;
  isAllOrNothing : bool;
  votesForAllOrNothing : N;
  votesForKeepRaised : N;
  status : CampaignStatus;
  minContribution : N;
  maxContribution : N;
  votingEnabled : bool;
  totalVotes : N;
  requiredVotes : N;
  votingEndTime : N;
  currentMode : FundingMode;
  backers : list N
}.

Record Contribution : Type := mkContribution {
  amount : N;
  timestamp : N;
  refunded : bool;
  mode : FundingMode
}.

Module Vote.
Record t : Type := mk { hasVoted : bool; votedForAllOrNothing : bool }.
Definition zero : t := {| hasVoted := false; votedForAllOrNothing := false |}.
End Vote.

(** The value of a [Campaign] slot that was never written. *)
Definition zeroCampaign : Campaign :=
  {| creator := 0; name := EmptyString; description := EmptyString;
     targetAmount := 0; deadline := 0; originalDeadline := 0;
     raisedAmount := 0; fundsReleased := false; driveLink := EmptyString;
     allowedModes := []; backersCount := 0; votingDeadline := 0;
     isAllOrNothing := false; votesForAllOrNothing := 0;
     votesForKeepRaised := 0; status := Active; minContribution := 0;
     maxContribution := 0; votingEnabled := false; totalVotes := 0;
     requiredVotes := 0; votingEndTime := 0; currentMode := Donation;
     backers := [] |}.

(** Field assignments [campaign.f = v]. *)
Definition set_deadline (v : N) (c : Campaign) : Campaign :=
  mkCampaign (creator c) (name c) (description c) (targetAmount c) v
    (originalDeadline c) (raisedAmount c) (fundsReleased c) (driveLink c)
    (allowedModes c) (backersCount c) (votingDeadline c) (isAllOrNothing c)
    (votesForAllOrNothing c) (votesForKeepRaised c) (status c)
    (minContribution c) (maxContribution c) (votingEnabled c) (totalVotes c)
    (requiredVotes c) (votingEndTime c) (currentMode c) (backers c).
Definition set_raisedAmount (v : N) (c : Campaign) : Campaign :=
  mkCampaign (creator c) (name c) (description c) (targetAmount c) (deadline c)
    (originalDeadline c) v (fundsReleased c) (driveLink c)
    (allowedModes c) (backersCount c) (votingDeadline c) (isAllOrNothing c)
    (votesForAllOrNothing c) (votesForKeepRaised c) (status c)
    (minContribution c) (maxContribution c) (votingEnabled c) (totalVotes c)
    (requiredVotes c) (votingEndTime c) (currentMode c) (backers c).
Definition set_fundsReleased (v : bool) (c : Campaign) : Campaign :=
  mkCampaign (creator c) (name c) (description c) (targetAmount c) (deadline c)
    (originalDeadline c) (raisedAmount c) v (driveLink c)
    (allowedModes c) (backersCount c) (votingDeadline c) (isAllOrNothing c)
    (votesForAllOrNothing c) (votesForKeepRaised c) (status c)
    (minContribution c) (maxContribution c) (votingEnabled c) (totalVotes c)
    (requiredVotes c) (votingEndTime c) (currentMode c) (backers c).
Definition set_backersCount (v : N) (c : Campaign) : Campaign :=
  mkCampaign (creator c) (name c) (description c) (targetAmount c) (deadline c)
    (originalDeadline c) (raisedAmount c) (fundsReleased c) (driveLink c)
    (allowedModes c) v (votingDeadline c) (isAllOrNothing c)
    (votesForAllOrNothing c) (votesForKeepRaised c) (status c)
    (minContribution c) (maxContribution c) (votingEnabled c) (totalVotes c)
    (requiredVotes c) (votingEndTime c) (currentMode c) (backers c).
Definition set_isAllOrNothing (v : bool) (c : Campaign) : Campaign :=
  mkCampaign (creator c) (name c) (description c) (targetAmount c) (deadline c)
    (originalDeadline c) (raisedAmount c) (fundsReleased c) (driveLink c)
    (allowedModes c) (backersCount c) (votingDeadline c) v
    (votesForAllOrNothing c) (votesForKeepRaised c) (status c)
    (minContribution c) (maxContribution c) (votingEnabled c) (totalVotes c)
    (requiredVotes c) (votingEndTime c) (currentMode c) (backers c).
Definition set_status (v : CampaignStatus) (c : Campaign) : Campaign :=
  mkCampaign (creator c) (name c) (description c) (targetAmount c) (deadline c)
    (originalDeadline c) (raisedAmount c) (fundsReleased c) (driveLink c)
    (allowedModes c) (backersCount c) (votingDeadline c) (isAllOrNothing c)
    (votesForAllOrNothing c) (votesForKeepRaised c) v
    (minContribution c) (maxContribution c) (votingEnabled c) (totalVotes c)
    (requiredVotes c) (votingEndTime c) (currentMode c) (backers c).
Definition set_votingEnabled (v : bool) (c : Campaign) : Campaign :=
  mkCampaign (creator c) (name c) (description c) (targetAmount c) (deadline c)
    (originalDeadline c) (raisedAmount c) (fundsReleased c) (driveLink c)
    (allowedModes c) (backersCount c) (votingDeadline c) (isAllOrNothing c)
    (votesForAllOrNothing c) (votesForKeepRaised c) (status c)
    (minContribution c) (maxContribution c) v (totalVotes c)
    (requiredVotes c) (votingEndTime c) (currentMode c) (backers c).
Definition set_totalVotes (v : N) (c : Campaign) : Campaign :=
  mkCampaign (creator c) (name c) (description c) (targetAmount c) (deadline c)
    (originalDeadline c) (raisedAmount c) (fundsReleased c) (driveLink c)
    (allowedModes c) (backersCount c) (votingDeadline c) (isAllOrNothing c)
    (votesForAllOrNothing c) (votesForKeepRaised c) (status c)
    (minContribution c) (maxContribution c) (votingEnabled c) v
    (requiredVotes c) (votingEndTime c) (currentMode c) (backers c).
Definition set_requiredVotes (v : N) (c : Campaign) : Campaign :=
  mkCampaign (creator c) (name c) (description c) (targetAmount c) (deadline c)
    (originalDeadline c) (raisedAmount c) (fundsReleased c) (driveLink c)
    (allowedModes c) (backersCount c) (votingDeadline c) (isAllOrNothing c)
    (votesForAllOrNothing c) (votesForKeepRaised c) (status c)
    (minContribution c) (maxContribution c) (votingEnabled c) (totalVotes c)
    v (votingEndTime c) (currentMode c) (backers c).
Definition set_votingEndTime (v : N) (c : Campaign) : Campaign :=
  mkCampaign (creator c) (name c) (description c) (targetAmount c) (deadline c)
    (originalDeadline c) (raisedAmount c) (fundsReleased c) (driveLink c)
    (allowedModes c) (backersCount c) (votingDeadline c) (isAllOrNothing c)
    (votesForAllOrNothing c) (votesForKeepRaised c) (status c)
    (minContribution c) (maxContribution c) (votingEnabled c) (totalVotes c)
    (requiredVotes c) v (currentMode c) (backers c).
Definition set_currentMode (v : FundingMode) (c : Campaign) : Campaign :=
  mkCampaign (creator c) (name c) (description c) (targetAmount c) (deadline c)
    (originalDeadline c) (raisedAmount c) (fundsReleased c) (driveLink c)
    (allowedModes c) (backersCount c) (votingDeadline c) (isAllOrNothing c)
    (votesForAllOrNothing c) (votesForKeepRaised c) (status c)
    (minContribution c) (maxContribution c) (votingEnabled c) (totalVotes c)
    (requiredVotes c) (votingEndTime c) v (backers c).
Definition set_backers (v : list N) (c : Campaign) : Campaign :=
  mkCampaign (creator c) (name c) (description c) (targetAmount c) (deadline c)
    (originalDeadline c) (raisedAmount c) (fundsReleased c) (driveLink c)
    (allowedModes c) (backersCount c) (votingDeadline c) (isAllOrNothing c)
    (votesForAllOrNothing c) (votesForKeepRaised c) (status c)
    (minContribution c) (maxContribution c) (votingEnabled c) (totalVotes c)
    (requiredVotes c) (votingEndTime c) (currentMode c) v.

(** ** Contract storage *)

(** State variables of the contract, in declaration order, preceded by the
    [Ownable] owner and the ether balance held by the contract.  Mappings with
    two keys are keyed by the pair (campaign id, address). *)
Record State : Type := mkState {
  owner : N;
  balance : N;
  campaignIds : N;                                  (* Counters.Counter _campaignIds *)
  campaignCount : N;
  campaigns : gmap N Campaign;
  contributions : gmap (N * N) (list Contribution);
  campaignVotes : gmap (N * N) Vote.t;
  backerFundingModes : gmap (N * N) FundingMode;
  voterHasVoted : gmap (N * N) bool;
  voteWeight : gmap (N * N) N;
  votes : gmap (N * N) FundingMode
}.

Definition platformFee : N := 25.
Definition VOTING_DURATION : N := 7 * 86400.

(** Reads of a mapping slot, with the zero value for a slot never written. *)
Definition campaign_at (st : State) (campaignId : N) : Campaign :=
  default zeroCampaign (campaigns st !! campaignId).
Definition contributions_at (st : State) (campaignId who : N) : list Contribution :=
  default [] (contributions st !! (campaignId, who)).
Definition campaignVotes_at (st : State) (campaignId who : N) : Vote.t :=
  default Vote.zero (campaignVotes st !! (campaignId, who)).
Definition voterHasVoted_at (st : State) (campaignId who : N) : bool :=
  default false (voterHasVoted st !! (campaignId, who)).
Definition voteWeight_at (st : State) (campaignId who : N) : N :=
  default 0 (voteWeight st !! (campaignId, who)).
Definition votes_at (st : State) (campaignId who : N) : FundingMode :=
  default Donation (votes st !! (campaignId, who)).

(** Writes of storage. *)
Definition set_owner (v : N) (st : State) : State :=
  mkState v (balance st) (campaignIds st) (campaignCount st) (campaigns st)
    (contributions st) (campaignVotes st) (backerFundingModes st)
    (voterHasVoted st) (voteWeight st) (votes st).
Definition set_balance (v : N) (st : State) : State :=
  mkState (owner st) v (campaignIds st) (campaignCount st) (campaigns st)
    (contributions st) (campaignVotes st) (backerFundingModes st)
    (voterHasVoted st) (voteWeight st) (votes st).
Definition set_counters (ids count : N) (st : State) : State :=
  mkState (owner st) (balance st) ids count (campaigns st)
    (contributions st) (campaignVotes st) (backerFundingModes st)
    (voterHasVoted st) (voteWeight st) (votes st).
Definition set_campaign (campaignId : N) (c : Campaign) (st : State) : State :=
  mkState (owner st) (balance st) (campaignIds st) (campaignCount st)
    (<[campaignId := c]> (campaigns st))
    (contributions st) (campaignVotes st) (backerFundingModes st)
    (voterHasVoted st) (voteWeight st) (votes st).
Definition set_contributions (campaignId who : N) (l : list Contribution)
    (st : State) : State :=
  mkState (owner st) (balance st) (campaignIds st) (campaignCount st)
    (campaigns st) (<[(campaignId, who) := l]> (contributions st))
    (campaignVotes st) (backerFundingModes st)
    (voterHasVoted st) (voteWeight st) (votes st).
Definition record_vote (campaignId who : N) (m : FundingMode) (weight : N)
    (st : State) : State :=
  mkState (owner st) (balance st) (campaignIds st) (campaignCount st)
    (campaigns st) (contributions st) (campaignVotes st) (backerFundingModes st)
    (<[(campaignId, who) := true]> (voterHasVoted st))
    (<[(campaignId, who) := weight]> (voteWeight st))
    (<[(campaignId, who) := m]> (votes st)).

(** ** Calls *)

(** What a call sees of the chain: the caller, the ether sent along, the block
    time, and which accounts accept a plain ether transfer (a contract account
    may refuse one, which makes [transfer] fail). *)
Record Env : Type := mkEnv {
  msg_sender : N;
  msg_value : N;
  block_timestamp : N;
  accepts : N -> bool
}.

(** An ether transfer made by a call: recipient and amount. *)
Definition Transfer : Type := N * N.

(** [payable(to).transfer(value)]: fails when the contract holds less than
    [value] or the recipient refuses.  Only 2300 gas is forwarded, so the
    recipient cannot call back into the contract; the [nonReentrant] modifier
    therefore never fires and is not represented. *)
Definition transfer (e : Env) (to value : N) (st : State) : result State :=
  if (value <=? balance st) && accepts e to
  then Ok (set_balance (balance st - value) st)
  else TransferFailed.

Definition statusIs (c : Campaign) (s : CampaignStatus) : bool :=
  bool_decide (status c = s).

(** [createCampaign]: writes the new fields into slot [_campaignIds.current()],
    leaving the other fields of the slot as they are, then bumps the counter
    (unchecked in [Counters]) and [campaignCount] (checked). *)
Definition createCampaign (e : Env) (name_ description_ : string)
    (targetAmount_ deadline_ : N) (driveLink_ : string)
    (allowedModes_ : list FundingMode) (minContribution_ maxContribution_ : N)
    (st : State) : result (State * N) :=
  require (0 <? targetAmount_) "Target amount must be greater than 0";;
  require (block_timestamp e <? deadline_) "Deadline must be in the future";;
  require (0 <? String.length name_)%nat "Name cannot be empty";;
  require (0 <? length allowedModes_)%nat "Must specify at least one funding mode";;
  require (minContribution_ <=? maxContribution_) "Min contribution must be <= max";;
  let campaignId := campaignIds st in
  let campaign := campaign_at st campaignId in
  votingDeadline_ ← checked_add deadline_ VOTING_DURATION;
  let campaign :=
    mkCampaign (msg_sender e) name_ description_ targetAmount_ deadline_
      deadline_ (raisedAmount campaign) (fundsReleased campaign) driveLink_
      allowedModes_ (backersCount campaign) votingDeadline_
      (isAllOrNothing campaign) (votesForAllOrNothing campaign)
      (votesForKeepRaised campaign) Active minContribution_ maxContribution_
      (votingEnabled campaign) (totalVotes campaign) (requiredVotes campaign)
      (votingEndTime campaign) (currentMode campaign) (backers campaign) in
  count ← checked_add (campaignCount st) 1;
  Ok (set_counters ((campaignIds st + 1) mod UINT256_MODULUS) count
        (set_campaign campaignId campaign st),
      campaignId).

(** The ledger write of [contribute].  Line 191 of the source is
    [contributions[campaignId][msg.sender] += msg.value] on a slot of type
    [Contribution[]].  Solidity has no [+=] between an array of structs and
    a [uint256], so the statement has no meaning of its own, and no other
    line of the contract constructs a [Contribution].  What the line is
    meant to store is read here in two ways, both of which leave the slot in
    a shape that [vote] (entry 0, [amount]) and [requestRefund] (every
    entry, [amount] and [refunded]) can read:
    - a new entry for [msg.value] is pushed onto the array, or
    - [msg.value] is added to the amount of entry 0, which is created when
      the array is empty.
    [newContribution] is the entry that either reading creates: not
    refunded, stamped with the block time, with the zero funding mode (the
    function takes no mode).  [contribute] below takes the first reading;
    [contributeAs], further down, takes the reading as a parameter, and what
    is stated about the entries a contribution leaves in the caller's slot
    is proved for both. *)
Definition newContribution (e : Env) : Contribution :=
  {| amount := msg_value e; timestamp := block_timestamp e;
     refunded := false; mode := Donation |}.

(** [contribute] (payable): the ether sent is credited to the contract.  The
    ledger write is the push reading of line 191; every other line is as in
    the source. *)
Definition contribute (e : Env) (campaignId : N) (st : State)
    : result (State * list Transfer) :=
  let campaign := campaign_at st campaignId in
  require (statusIs campaign Active) "Campaign is not active";;
  require (0 <? msg_value e) "Contribution must be greater than 0";;
  require (block_timestamp e <=? deadline campaign) "Campaign has ended";;
  let entries := contributions_at st campaignId (msg_sender e) ++ [newContribution e] in
  raised ← checked_add (raisedAmount campaign) (msg_value e);
  count ← checked_add (backersCount campaign) 1;
  let campaign :=
    set_backers (backers campaign ++ [msg_sender e])
      (set_backersCount count (set_raisedAmount raised campaign)) in
  let campaign :=
    if targetAmount campaign <=? raisedAmount campaign
    then set_deadline (block_timestamp e) (set_status Completed campaign)
    else campaign in
  Ok (set_balance (balance st + msg_value e)
        (set_campaign campaignId campaign
           (set_contributions campaignId (msg_sender e) entries st)),
      []).

Definition startVoting (e : Env) (campaignId : N) (st : State)
    : result (State * list Transfer) :=
  let campaign := campaign_at st campaignId in
  require (msg_sender e =? creator campaign) "Only creator can start voting";;
  require (negb (votingEnabled campaign)) "Voting already started";;
  require (targetAmount campaign <=? raisedAmount campaign) "Target not reached";;
  endTime ← checked_add (block_timestamp e) (7 * 86400);
  let campaign :=
    set_requiredVotes (backersCount campaign / 2)
      (set_votingEndTime endTime (set_votingEnabled true campaign)) in
  Ok (set_campaign campaignId campaign st, []).

(** The loop of [getCampaignBackers] over the entries it reads: a backer with
    at least one contribution entry is copied to the next free slot. *)
Fixpoint copyBackers (st : State) (campaignId : N) (read : list N) : list N :=
  match read with
  | [] => []
  | backer :: rest =>
      if (0 <? length (contributions_at st campaignId backer))%nat
      then backer :: copyBackers st campaignId rest
      else copyBackers st campaignId rest
  end.

(** [getCampaignBackers]: an array of [backersCount] addresses, zero where no
    backer was copied; reading [campaign.backers] past its end panics. *)
Definition getCampaignBackers (st : State) (campaignId : N) : result (list N) :=
  let campaign := campaign_at st campaignId in
  if backersCount campaign <=? N.of_nat (length (backers campaign)) then
    let n := N.to_nat (backersCount campaign) in
    let copied := copyBackers st campaignId (take n (backers campaign)) in
    Ok (copied ++ replicate (n - length copied) 0)
  else Panic PANIC_INDEX.

(** First loop of [endVoting]: [modeVotes[uint256(votes[b])] += voteWeight[b]]
    for each entry [b] of the backers array whose [voterHasVoted] flag is set. *)
Fixpoint tallyVotes (st : State) (campaignId : N) (bs : list N)
    (modeVotes : list N) : result (list N) :=
  match bs with
  | [] => Ok modeVotes
  | b :: rest =>
      if voterHasVoted_at st campaignId b then
        let modeIndex_ := modeIndex (votes_at st campaignId b) in
        sum ← checked_add (default 0 (modeVotes !! modeIndex_))
                          (voteWeight_at st campaignId b);
        tallyVotes st campaignId rest (<[modeIndex_ := sum]> modeVotes)
      else tallyVotes st campaignId rest modeVotes
  end.

(** Second loop of [endVoting]: [i] runs over 0..3 with [maxVotes] starting at
    0 and [winningMode] at [FundingMode(0)]. *)
Definition scanStep (modeVotes : list N) (acc : N * FundingMode) (i : nat)
    : N * FundingMode :=
  let '(maxVotes, winningMode) := acc in
  if maxVotes <? default 0 (modeVotes !! i)
  then (default 0 (modeVotes !! i), modeOfIndex i)
  else (maxVotes, winningMode).

Definition findWinner (modeVotes : list N) : FundingMode :=
  snd (fold_left (scanStep modeVotes) [0; 1; 2; 3]%nat (0, modeOfIndex 0)).

Definition endVoting (campaignId : N) (st : State) : result State :=
  let campaign := campaign_at st campaignId in
  require (votingEnabled campaign) "Voting not started";;
  bs ← getCampaignBackers st campaignId;
  modeVotes ← tallyVotes st campaignId bs [0; 0; 0; 0];
  let winningMode := findWinner modeVotes in
  Ok (set_campaign campaignId
        (set_votingEnabled false (set_currentMode winningMode campaign)) st).

Definition vote (e : Env) (campaignId : N) (mode_ : FundingMode) (st : State)
    : result (State * list Transfer) :=
  let campaign := campaign_at st campaignId in
  require (votingEnabled campaign) "Voting not started";;
  require (block_timestamp e <=? votingEndTime campaign) "Voting ended";;
  require (negb (voterHasVoted_at st campaignId (msg_sender e))) "Already voted";;
  match contributions_at st campaignId (msg_sender e) with
  | [] => Revert "No contribution found"
  | first :: _ =>
      let weight := amount first in
      let st := record_vote campaignId (msg_sender e) mode_ weight st in
      total ← checked_add (totalVotes campaign) weight;
      let st := set_campaign campaignId (set_totalVotes total campaign) st in
      if requiredVotes campaign <=? total
      then st ← endVoting campaignId st; Ok (st, [])
      else Ok (st, [])
  end.

Definition finalizeCampaign (e : Env) (campaignId : N) (st : State)
    : result (State * list Transfer) :=
  require (campaignId <? campaignIds st) "Campaign does not exist";;
  let campaign := campaign_at st campaignId in
  require (votingDeadline campaign <? block_timestamp e) "Voting period not ended";;
  require (statusIs campaign UnderVoting) "Campaign not in voting state";;
  require (negb (fundsReleased campaign)) "Funds already released";;
  let isAllOrNothing_ := votesForKeepRaised campaign <? votesForAllOrNothing campaign in
  let campaign := set_isAllOrNothing isAllOrNothing_ campaign in
  if isAllOrNothing_ && (raisedAmount campaign <? targetAmount campaign) then
    Ok (set_campaign campaignId (set_status Failed campaign) st, [])
  else
    product ← checked_mul (raisedAmount campaign) platformFee;
    let fee := product / 1000 in
    payout ← checked_sub (raisedAmount campaign) fee;
    let campaign := set_status Completed (set_fundsReleased true campaign) in
    let st := set_campaign campaignId campaign st in
    st ← transfer e (creator campaign) payout st;
    st ← transfer e (owner st) fee st;
    Ok (st, [(creator campaign, payout); (owner st, fee)]).

Definition markRefunded (c : Contribution) : Contribution :=
  {| amount := amount c; timestamp := timestamp c; refunded := true; mode := mode c |}.

(** The loop of [requestRefund]: the running [refundAmount] and the entries as
    they are left in storage. *)
Fixpoint refundLoop (userContributions : list Contribution) (refundAmount : N)
    : result (N * list Contribution) :=
  match userContributions with
  | [] => Ok (refundAmount, [])
  | c :: rest =>
      if refunded c then
        r ← refundLoop rest refundAmount;
        Ok (r.1, c :: r.2)
      else
        sum ← checked_add refundAmount (amount c);
        r ← refundLoop rest sum;
        Ok (r.1, markRefunded c :: r.2)
  end.

Definition requestRefund (e : Env) (campaignId : N) (st : State)
    : result (State * list Transfer) :=
  require (campaignId <? campaignIds st) "Campaign does not exist";;
  let campaign := campaign_at st campaignId in
  require (statusIs campaign Failed) "Refunds not available";;
  r ← refundLoop (contributions_at st campaignId (msg_sender e)) 0;
  let refundAmount := r.1 in
  require (0 <? refundAmount) "No refund available";;
  raised ← checked_sub (raisedAmount campaign) refundAmount;
  let st := set_contributions campaignId (msg_sender e) r.2 st in
  let st := set_campaign campaignId (set_raisedAmount raised campaign) st in
  st ← transfer e (msg_sender e) refundAmount st;
  Ok (st, [(msg_sender e, refundAmount)]).

Definition updateCampaignStatus (e : Env) (campaignId : N) (st : State)
    : result (State * list Transfer) :=
  require (campaignId <? campaignIds st) "Campaign does not exist";;
  let campaign := campaign_at st campaignId in
  if statusIs campaign Active && (deadline campaign <=? block_timestamp e)
  then Ok (set_campaign campaignId (set_status UnderVoting campaign) st, [])
  else Ok (st, []).

(** The two state-changing functions inherited from OpenZeppelin's [Ownable]. *)
Definition transferOwnership (e : Env) (newOwner : N) (st : State)
    : result (State * list Transfer) :=
  require (msg_sender e =? owner st) "Ownable: caller is not the owner";;
  require (negb (newOwner =? 0)) "Ownable: new owner is the zero address";;
  Ok (set_owner newOwner st, []).

Definition renounceOwnership (e : Env) (st : State)
    : result (State * list Transfer) :=
  require (msg_sender e =? owner st) "Ownable: caller is not the owner";;
  Ok (set_owner 0 st, []).

(** ** Views *)

Definition getVote (st : State) (campaignId voter : N) : bool * bool :=
  let voterVote := campaignVotes_at st campaignId voter in
  (Vote.hasVoted voterVote, Vote.votedForAllOrNothing voterVote).

Definition hasVoted (st : State) (campaignId voter : N) : result bool :=
  require (campaignId <? campaignIds st) "Campaign does not exist";;
  Ok (Vote.hasVoted (campaignVotes_at st campaignId voter)).

Definition getVoteStats (st : State) (campaignId : N) : result (N * N * N) :=
  require (campaignId <? campaignIds st) "Campaign does not exist";;
  let campaign := campaign_at st campaignId in
  total ← checked_add (votesForAllOrNothing campaign) (votesForKeepRaised campaign);
  Ok (total, votesForAllOrNothing campaign, votesForKeepRaised campaign).

Definition getContributions (st : State) (campaignId contributor : N)
    : list Contribution :=
  contributions_at st campaignId contributor.

(** ** Transactions and reachable states *)

Inductive Call : Type :=
| CreateCampaign (name_ description_ : string) (targetAmount_ deadline_ : N)
    (driveLink_ : string) (allowedModes_ : list FundingMode)
    (minContribution_ maxContribution_ : N)
| Contribute (campaignId : N)
| StartVoting (campaignId : N)
| CastVote (campaignId : N) (mode_ : FundingMode)
| FinalizeCampaign (campaignId : N)
| RequestRefund (campaignId : N)
| UpdateCampaignStatus (campaignId : N)
| TransferOwnership (newOwner : N)
| RenounceOwnership.

(** Only [contribute] is payable: any other function rejects a call that
    carries ether. *)
Definition nonPayable (e : Env) : result unit :=
  require (msg_value e =? 0) EmptyString.

Definition exec (e : Env) (c : Call) (st : State) : result (State * list Transfer) :=
  match c with
  | CreateCampaign n d t dl link modes mn mx =>
      nonPayable e;;
      r ← createCampaign e n d t dl link modes mn mx st; Ok (r.1, [])
  | Contribute campaignId => contribute e campaignId st
  | StartVoting campaignId => nonPayable e;; startVoting e campaignId st
  | CastVote campaignId m => nonPayable e;; vote e campaignId m st
  | FinalizeCampaign campaignId => nonPayable e;; finalizeCampaign e campaignId st
  | RequestRefund campaignId => nonPayable e;; requestRefund e campaignId st
  | UpdateCampaignStatus campaignId => nonPayable e;; updateCampaignStatus e campaignId st
  | TransferOwnership newOwner => nonPayable e;; transferOwnership e newOwner st
  | RenounceOwnership => nonPayable e;; renounceOwnership e st
  end.

(** Arguments as the ABI delivers them. *)
Definition wf_env (e : Env) : Prop :=
  is_address (msg_sender e) ∧ is_uint256 (msg_value e) ∧ is_uint256 (block_timestamp e).

Definition wf_call (c : Call) : Prop :=
  match c with
  | CreateCampaign _ _ t dl _ _ mn mx =>
      is_uint256 t ∧ is_uint256 dl ∧ is_uint256 mn ∧ is_uint256 mx
  | Contribute i | StartVoting i | CastVote i _ | FinalizeCampaign i
  | RequestRefund i | UpdateCampaignStatus i => is_uint256 i
  | TransferOwnership a => is_address a
  | RenounceOwnership => True
  end.

(** Storage right after deployment by [deployer]. *)
Definition init (deployer : N) : State :=
  mkState deployer 0 0 0 ∅ ∅ ∅ ∅ ∅ ∅ ∅.

Inductive reachable : State -> Prop :=
| reachable_init deployer :
    is_address deployer -> reachable (init deployer)
| reachable_step st e c st' out :
    reachable st -> wf_env e -> wf_call c ->
    exec e c st = Ok (st', out) -> reachable st'.

(** Running a list of transactions, stopping at the first failure. *)
Fixpoint run (txs : list (Env * Call)) (st : State) : result State :=
  match txs with
  | [] => Ok st
  | (e, c) :: rest => r ← exec e c st; run rest r.1
  end.

(** * Specification vocabulary *)

(** ** The ledger total *)

(** Sum of the amounts of the entries whose [refunded] flag is false. *)
Definition entriesTotal (l : list Contribution) : N :=
  foldr (fun c acc => if refunded c then acc else amount c + acc) 0 l.

(** The same sum over every backer of one campaign. *)
Definition ledgerTotal (m : gmap (N * N) (list Contribution)) (campaignId : N) : N :=
  map_fold (fun k l acc => if decide (k.1 = campaignId) then entriesTotal l + acc else acc)
           0 m.

Definition nonRefundedTotal (st : State) (campaignId : N) : N :=
  ledgerTotal (contributions st) campaignId.

Definition ledger_inv (st : State) : Prop :=
  forall campaignId,
    raisedAmount (campaign_at st campaignId) = nonRefundedTotal st campaignId.


(** ** Invariants of reachable states *)

(** [backersCount] counts the entries of [backers]. *)
Definition backers_inv (st : State) : Prop :=
  forall campaignId,
    backersCount (campaign_at st campaignId) =
    N.of_nat (length (backers (campaign_at st campaignId))).

(** The two legacy vote counters are never written, and no campaign fails. *)
Definition dormant_inv (st : State) : Prop :=
  forall campaignId,
    votesForAllOrNothing (campaign_at st campaignId) = 0 /\
    votesForKeepRaised (campaign_at st campaignId) = 0 /\
    status (campaign_at st campaignId) <> Failed.

(** Every entry of [backers] holds at least one contribution entry. *)
Definition backed_inv (st : State) : Prop :=
  forall campaignId b,
    b ∈ backers (campaign_at st campaignId) ->
    contributions_at st campaignId b <> [].

(** Ether the contract still holds for a campaign: what was raised, until it
    is released. *)
Definition held (c : Campaign) : N :=
  if fundsReleased c then 0 else raisedAmount c.

Definition heldTotal (m : gmap N Campaign) : N :=
  map_fold (fun _ c acc => held c + acc) 0 m.

(** The balance of the contract is what it holds for its campaigns; only
    existing campaigns are ever released, and released ones are Completed. *)
Definition solvent_inv (st : State) : Prop :=
  heldTotal (campaigns st) = balance st /\
  campaignCount st = campaignIds st /\
  forall campaignId,
    fundsReleased (campaign_at st campaignId) = true ->
    status (campaign_at st campaignId) = Completed /\
    campaignId < campaignIds st.

Definition wf_tx (tx : Env * Call) : Prop := wf_env tx.1 /\ wf_call tx.2.

(** Any number of successful transactions, by any callers. *)
Inductive steps : State -> State -> Prop :=
| steps_refl st : steps st st
| steps_step st e c st1 out st2 :
    exec e c st = Ok (st1, out) -> steps st1 st2 -> steps st st2.

(** ** Tallies *)

(** What one entry [b] of the backers array adds to the tally of [m]. *)
Definition votedWeight (st : State) (campaignId : N) (m : FundingMode) (b : N) : N :=
  if voterHasVoted_at st campaignId b && bool_decide (votes_at st campaignId b = m)
  then voteWeight_at st campaignId b else 0.

(** The tally of [m] over the backers array [bs], entry by entry. *)
Definition modeTally (st : State) (campaignId : N) (bs : list N) (m : FundingMode) : N :=
  foldr (fun b acc => votedWeight st campaignId m b + acc) 0 bs.

Definition tallyOf (modeVotes : list N) (m : FundingMode) : N :=
  default 0 (modeVotes !! modeIndex m).

(** ** Concrete scenarios *)

Definition admin : N := 1.
Definition founder : N := 200.
Definition alice : N := 101.
Definition bob : N := 102.
Definition carol : N := 103.
Definition dave : N := 104.

(** A call by [sender] carrying [value] wei at time [now]; every account
    accepts ether. *)
Definition callBy (sender value now : N) : Env :=
  mkEnv sender value now (fun _ => true).

(** The founder creates, at time 1000, a campaign with the given target,
    deadline 5000 and contribution bounds 10..1000. *)
Definition openCampaign (target : N) : Env * Call :=
  (callBy founder 0 1000,
   CreateCampaign "Well" "A village well" target 5000 "drive" [Donation] 10 1000).

Definition stateAfter (txs : list (Env * Call)) : State :=
  match run txs (init admin) with Ok st => st | _ => init admin end.

(** The state a call leaves behind: the new one, or the old one if it failed. *)
Definition stateOf (r : result (State * list Transfer)) (old : State) : State :=
  match r with Ok (st, _) => st | _ => old end.

(** Target 1000 reached by a single contribution. *)
Definition fundedTrace : list (Env * Call) :=
  [openCampaign 1000; (callBy alice 1000 2000, Contribute 0)].

(** Target 2000 missed: 1000 raised, deadline passed, status refreshed. *)
Definition missedTrace : list (Env * Call) :=
  [openCampaign 2000; (callBy alice 1000 2000, Contribute 0);
   (callBy bob 0 6000, UpdateCampaignStatus 0)].

(** Target 1000 missed with 400 raised; the deadline has passed at 6000. *)
Definition shortTrace : list (Env * Call) :=
  [openCampaign 1000; (callBy alice 400 2000, Contribute 0)].

(** Four backers of 100 each reach the target 400; voting is opened. *)
Definition fourBackersTrace : list (Env * Call) :=
  [openCampaign 400;
   (callBy alice 100 2000, Contribute 0); (callBy bob 100 2100, Contribute 0);
   (callBy carol 100 2200, Contribute 0); (callBy dave 100 2300, Contribute 0);
   (callBy founder 0 2400, StartVoting 0)].

(** One backer contributes 10 and then 20, reaching the target 30; voting is
    opened. *)
Definition twiceTrace : list (Env * Call) :=
  [openCampaign 30;
   (callBy alice 10 2000, Contribute 0); (callBy alice 20 2100, Contribute 0);
   (callBy founder 0 2200, StartVoting 0)].

(** Alice contributes 10 twice, Bob 10 once (target 30).  Alice votes Equity,
    which closes the vote; the founder reopens it and Bob votes Donation. *)
Definition tieTrace : list (Env * Call) :=
  [openCampaign 30;
   (callBy alice 10 2000, Contribute 0); (callBy alice 10 2100, Contribute 0);
   (callBy bob 10 2200, Contribute 0);
   (callBy founder 0 2300, StartVoting 0);
   (callBy alice 0 2400, CastVote 0 Equity);
   (callBy founder 0 2500, StartVoting 0);
   (callBy bob 0 2600, CastVote 0 Donation)].

(** Alice and Bob contribute 10 each (target 20).  Alice votes Reward, which
    closes the vote; the founder reopens it. *)
Definition pairTrace : list (Env * Call) :=
  [openCampaign 20;
   (callBy alice 10 2000, Contribute 0); (callBy bob 10 2100, Contribute 0);
   (callBy founder 0 2300, StartVoting 0);
   (callBy alice 0 2400, CastVote 0 Reward);
   (callBy founder 0 2500, StartVoting 0)].

(** Contributions of 9 and of 1001 to a campaign with bounds 10..1000. *)
Definition boundsTrace : list (Env * Call) :=
  [openCampaign 5000;
   (callBy alice 9 2000, Contribute 0); (callBy bob 1001 2100, Contribute 0)].

(** A storage in which campaign 0 has failed with 400 raised by Alice in two
    entries (no transaction produces it; it exercises [requestRefund]). *)
Definition failedState : State :=
  let st := stateAfter [openCampaign 1000;
                        (callBy alice 150 2000, Contribute 0);
                        (callBy alice 250 2100, Contribute 0)] in
  set_campaign 0 (set_status Failed (campaign_at st 0)) st.

(** ** Further invariants of reachable states *)

(** A slot that no [createCampaign] has written yet still has deadline 0 and
    creator 0, whatever was sent to it. *)
Definition unborn_inv (st : State) : Prop :=
  forall campaignId,
    campaignIds st <= campaignId ->
    deadline (campaign_at st campaignId) = 0 /\
    creator (campaign_at st campaignId) = 0.

(** Every contribution entry carries a positive amount and is not refunded. *)
Definition entries_inv (st : State) : Prop :=
  forall campaignId who c,
    c ∈ contributions_at st campaignId who ->
    refunded c = false /\ 0 < amount c.

(** Who holds a contribution entry is in [backers]. *)
Definition listed_inv (st : State) : Prop :=
  forall campaignId who,
    contributions_at st campaignId who <> [] ->
    who ∈ backers (campaign_at st campaignId).

(** A recorded vote carries the amount of the voter's first entry. *)
Definition voters_inv (st : State) : Prop :=
  forall campaignId who,
    voterHasVoted_at st campaignId who = true ->
    exists first rest,
      contributions_at st campaignId who = first :: rest /\
      voteWeight_at st campaignId who = amount first.

(** Sum of the weights recorded for one campaign. *)
Definition weightTotal (m : gmap (N * N) N) (campaignId : N) : N :=
  map_fold (fun k w acc => if decide (k.1 = campaignId) then w + acc else acc) 0 m.

(** [totalVotes] is the sum of the recorded weights, and a weight is recorded
    only together with the [voterHasVoted] flag. *)
Definition weights_inv (st : State) : Prop :=
  (forall campaignId who,
     voterHasVoted_at st campaignId who = false ->
     voteWeight st !! (campaignId, who) = None) /\
  forall campaignId,
    totalVotes (campaign_at st campaignId) = weightTotal (voteWeight st) campaignId.

(** All of the above together with the invariants of the claims. *)
Definition consistent (st : State) : Prop :=
  ledger_inv st /\ backers_inv st /\ backed_inv st /\ dormant_inv st /\
  solvent_inv st /\ unborn_inv st /\ entries_inv st /\ listed_inv st /\
  voters_inv st /\ weights_inv st.

(** The edges of the status machine as the contract walks them. *)
Definition statusEdge (s s' : CampaignStatus) : Prop :=
  s' = s \/
  (s = Active /\ s' = Completed) \/
  (s = Active /\ s' = UnderVoting) \/
  (s = UnderVoting /\ s' = Completed).

(** The fields of a campaign that only [createCampaign] writes. *)
Definition sameTerms (c c' : Campaign) : Prop :=
  creator c' = creator c /\ name c' = name c /\ description c' = description c /\
  targetAmount c' = targetAmount c /\ originalDeadline c' = originalDeadline c /\
  driveLink c' = driveLink c /\ allowedModes c' = allowedModes c /\
  votingDeadline c' = votingDeadline c /\
  minContribution c' = minContribution c /\ maxContribution c' = maxContribution c.

(** What the caller of a function observes of its ether movements: the
    transfers of a successful call, or the way it failed. *)
Definition payouts (r : result (State * list Transfer)) : result (list Transfer) :=
  match r with
  | Ok (_, out) => Ok out
  | Revert reason => Revert reason
  | Panic code => Panic code
  | TransferFailed => TransferFailed
  end.

(** ** The ledger write of [contribute], read both ways *)

(** The two readings of line 191,
    [contributions[campaignId][msg.sender] += msg.value]. *)
Inductive Line191 : Type :=
| PushEntry     (* a new entry for msg.value is pushed onto the array *)
| AddToEntry.   (* msg.value is added to the amount of entry 0 *)

Definition set_amount (v : N) (c : Contribution) : Contribution :=
  {| amount := v; timestamp := timestamp c; refunded := refunded c; mode := mode c |}.

(** The caller's slot after line 191, under either reading; the addition of
    the second reading is checked like every addition on storage. *)
Definition recordContribution (reading : Line191) (e : Env)
    (entries : list Contribution) : result (list Contribution) :=
  match reading with
  | PushEntry => Ok (entries ++ [newContribution e])
  | AddToEntry =>
      match entries with
      | [] => Ok [newContribution e]
      | c :: rest =>
          sum ← checked_add (amount c) (msg_value e);
          Ok (set_amount sum c :: rest)
      end
  end.

(** [contribute] with the reading of line 191 as a parameter; the lines
    around it are those of [contribute]. *)
Definition contributeAs (reading : Line191) (e : Env) (campaignId : N) (st : State)
    : result (State * list Transfer) :=
  let campaign := campaign_at st campaignId in
  require (statusIs campaign Active) "Campaign is not active";;
  require (0 <? msg_value e) "Contribution must be greater than 0";;
  require (block_timestamp e <=? deadline campaign) "Campaign has ended";;
  entries ← recordContribution reading e (contributions_at st campaignId (msg_sender e));
  raised ← checked_add (raisedAmount campaign) (msg_value e);
  count ← checked_add (backersCount campaign) 1;
  let campaign :=
    set_backers (backers campaign ++ [msg_sender e])
      (set_backersCount count (set_raisedAmount raised campaign)) in
  let campaign :=
    if targetAmount campaign <=? raisedAmount campaign
    then set_deadline (block_timestamp e) (set_status Completed campaign)
    else campaign in
  Ok (set_balance (balance st + msg_value e)
        (set_campaign campaignId campaign
           (set_contributions campaignId (msg_sender e) entries st)),
      []).

(** A transaction under a reading: only [contribute] depends on it. *)
Definition execAs (reading : Line191) (e : Env) (c : Call) (st : State)
    : result (State * list Transfer) :=
  match c with
  | Contribute campaignId => contributeAs reading e campaignId st
  | _ => exec e c st
  end.

Inductive reachableAs (reading : Line191) : State -> Prop :=
| reachableAs_init deployer :
    is_address deployer -> reachableAs reading (init deployer)
| reachableAs_step st e c st' out :
    reachableAs reading st -> wf_env e -> wf_call c ->
    execAs reading e c st = Ok (st', out) -> reachableAs reading st'.

Inductive stepsAs (reading : Line191) : State -> State -> Prop :=
| stepsAs_refl st : stepsAs reading st st
| stepsAs_step st e c st1 out st2 :
    execAs reading e c st = Ok (st1, out) -> stepsAs reading st1 st2 ->
    stepsAs reading st st2.

Fixpoint runAs (reading : Line191) (txs : list (Env * Call)) (st : State)
    : result State :=
  match txs with
  | [] => Ok st
  | (e, c) :: rest => r ← execAs reading e c st; runAs reading rest r.1
  end.

Definition stateAfterAs (reading : Line191) (txs : list (Env * Call)) : State :=
  match runAs reading txs (init admin) with Ok st => st | _ => init admin end.

(** ** Invariants that hold under both readings *)

(** Whoever has voted holds a contribution entry and a positive weight. *)
Definition voted_inv (st : State) : Prop :=
  forall campaignId who,
    voterHasVoted_at st campaignId who = true ->
    contributions_at st campaignId who <> [] /\
    0 < voteWeight_at st campaignId who.

(** No slot holds more than one entry. *)
Definition single_inv (st : State) : Prop :=
  forall campaignId who, (length (contributions_at st campaignId who) <= 1)%nat.

Definition sound (st : State) : Prop :=
  ledger_inv st /\ dormant_inv st /\ entries_inv st /\ listed_inv st /\ voted_inv st.

(** ** Further scenarios *)

(** Alice contributes 150 and then 250 to a campaign with target 1000. *)
Definition savingsTrace : list (Env * Call) :=
  [openCampaign 1000;
   (callBy alice 150 2000, Contribute 0); (callBy alice 250 2100, Contribute 0)].

(** Alice contributes 60 and then 10, Bob 100 (target 170).  Alice votes
    Equity, which closes the vote; the founder reopens it and Bob votes
    Donation. *)
Definition repeatTrace : list (Env * Call) :=
  [openCampaign 170;
   (callBy alice 60 2000, Contribute 0); (callBy alice 10 2100, Contribute 0);
   (callBy bob 100 2200, Contribute 0);
   (callBy founder 0 2300, StartVoting 0);
   (callBy alice 0 2400, CastVote 0 Equity);
   (callBy founder 0 2500, StartVoting 0);
   (callBy bob 0 2600, CastVote 0 Donation)].

(** A storage in which campaign 0 (target 1000, deadline 5000) is Active with
    voting open until 4000 and Alice's slot holds [entries]; it is written
    down as such, not produced by a run. *)
Definition votingStorage (entries : list Contribution) : State :=
  let st := stateAfter [openCampaign 1000] in
  let raised := entriesTotal entries in
  let campaign :=
    set_requiredVotes 500
      (set_votingEndTime 4000
         (set_votingEnabled true
            (set_backers (map (fun _ => alice) entries)
               (set_backersCount (N.of_nat (length entries))
                  (set_raisedAmount raised (campaign_at st 0)))))) in
  set_balance raised (set_campaign 0 campaign (set_contributions 0 alice entries st)).
(** * Reasoning support *)

Lemma UINT256_MODULUS_pos : 0 < UINT256_MODULUS.
Proof. reflexivity. Qed.

Global Opaque UINT256_MODULUS ADDRESS_MODULUS.

Lemma bind_Ok {A B} (k : A -> result B) (r : result A) (b : B) :
  mbind k r = Ok b -> exists a, r = Ok a /\ k a = Ok b.
Proof. destruct r; simpl; intros H; try discriminate. eauto. Qed.

Lemma require_Ok (cond : bool) (reason : string) (u : unit) :
  require cond reason = Ok u -> cond = true.
Proof. destruct cond; simpl; [reflexivity | discriminate]. Qed.

Lemma checked_add_Ok (a b c : N) :
  checked_add a b = Ok c -> c = a + b /\ a + b < UINT256_MODULUS.
Proof.
  unfold checked_add. destruct (a + b <? UINT256_MODULUS) eqn:E; [|discriminate].
  intros [= <-]. apply N.ltb_lt in E. auto.
Qed.

Lemma checked_sub_Ok (a b c : N) :
  checked_sub a b = Ok c -> c = a - b /\ b <= a.
Proof.
  unfold checked_sub. destruct (b <=? a) eqn:E; [|discriminate].
  intros [= <-]. apply N.leb_le in E. auto.
Qed.

Lemma checked_mul_Ok (a b c : N) :
  checked_mul a b = Ok c -> c = a * b /\ a * b < UINT256_MODULUS.
Proof.
  unfold checked_mul. destruct (a * b <? UINT256_MODULUS) eqn:E; [|discriminate].
  intros [= <-]. apply N.ltb_lt in E. auto.
Qed.

Lemma transfer_Ok (e : Env) (to value : N) (st st' : State) :
  transfer e to value st = Ok st' ->
  st' = set_balance (balance st - value) st /\ value <= balance st /\ accepts e to = true.
Proof.
  unfold transfer. destruct (value <=? balance st) eqn:E; simpl; [|discriminate].
  destruct (accepts e to); [|discriminate].
  intros [= <-]. apply N.leb_le in E. auto.
Qed.

Lemma endVoting_Ok (campaignId : N) (st st' : State) :
  endVoting campaignId st = Ok st' ->
  exists bs modeVotes,
    getCampaignBackers st campaignId = Ok bs /\
    tallyVotes st campaignId bs [0; 0; 0; 0] = Ok modeVotes /\
    st' = set_campaign campaignId
            (set_votingEnabled false
               (set_currentMode (findWinner modeVotes) (campaign_at st campaignId))) st.
Proof.
  unfold endVoting. intros H.
  apply bind_Ok in H as (_ & _ & H).
  apply bind_Ok in H as (bs & Hbs & H).
  apply bind_Ok in H as (mv & Hmv & H).
  injection H as <-. eauto.
Qed.

(** Peels the successful prefix of a call: each bind that returned [Ok] is
    split into the step and the rest, and each primitive step is replaced by
    what its success says. *)
Ltac peel H :=
  repeat
    (cbv zeta in H;
     lazymatch type of H with
     | mbind _ _ = Ok _ =>
         let a := fresh "a" in
         let Ha := fresh "Ha" in
         apply bind_Ok in H as (a & Ha & H);
         first
           [ apply require_Ok in Ha
           | apply checked_add_Ok in Ha as [-> Ha]
           | apply checked_sub_Ok in Ha as [-> Ha]
           | apply checked_mul_Ok in Ha as [-> Ha]
           | apply transfer_Ok in Ha as (-> & Ha)
           | apply endVoting_Ok in Ha as (? & ? & ? & ? & ->)
           | idtac ]
     | (if ?b then _ else _) = Ok _ => destruct b eqn:?
     | match ?l with [] => _ | _ :: _ => _ end = Ok _ => destruct l eqn:?
     | Ok _ = Ok _ => injection H as H
     | Revert _ = Ok _ => discriminate H
     | Panic _ = Ok _ => discriminate H
     | TransferFailed = Ok _ => discriminate H
     end).

(** Reading storage after a write. *)
Lemma campaign_at_set_campaign (st : State) (i j : N) (c : Campaign) :
  campaign_at (set_campaign i c st) j = if decide (i = j) then c else campaign_at st j.
Proof.
  unfold campaign_at, set_campaign; simpl.
  rewrite lookup_insert. destruct (decide (i = j)); reflexivity.
Qed.

Lemma campaign_at_set_balance (st : State) (v j : N) :
  campaign_at (set_balance v st) j = campaign_at st j.
Proof. reflexivity. Qed.

Lemma campaign_at_set_contributions (st : State) (i a j : N) l :
  campaign_at (set_contributions i a l st) j = campaign_at st j.
Proof. reflexivity. Qed.

Lemma campaign_at_record_vote (st : State) (i a j : N) m w :
  campaign_at (record_vote i a m w st) j = campaign_at st j.
Proof. reflexivity. Qed.

Lemma campaign_at_set_counters (st : State) (a b j : N) :
  campaign_at (set_counters a b st) j = campaign_at st j.
Proof. reflexivity. Qed.

Lemma campaign_at_set_owner (st : State) (v j : N) :
  campaign_at (set_owner v st) j = campaign_at st j.
Proof. reflexivity. Qed.

Lemma contributions_at_set_campaign (st : State) (i j b : N) (c : Campaign) :
  contributions_at (set_campaign i c st) j b = contributions_at st j b.
Proof. reflexivity. Qed.

Lemma contributions_at_set_balance (st : State) (v j b : N) :
  contributions_at (set_balance v st) j b = contributions_at st j b.
Proof. reflexivity. Qed.

Lemma contributions_at_set_contributions (st : State) (i a j b : N) l :
  contributions_at (set_contributions i a l st) j b =
  if decide ((i, a) = (j, b)) then l else contributions_at st j b.
Proof.
  unfold contributions_at, set_contributions; simpl.
  rewrite lookup_insert. destruct (decide ((i, a) = (j, b))); reflexivity.
Qed.

Lemma entriesTotal_app (l1 l2 : list Contribution) :
  entriesTotal (l1 ++ l2) = entriesTotal l1 + entriesTotal l2.
Proof.
  induction l1 as [|c l1 IH]; simpl; [reflexivity|].
  destruct (refunded c); lia.
Qed.

Lemma ledgerTotal_insert_fresh m k l campaignId :
  m !! k = None ->
  ledgerTotal (<[k := l]> m) campaignId =
  (if decide (k.1 = campaignId) then entriesTotal l else 0) + ledgerTotal m campaignId.
Proof.
  intros Hk. unfold ledgerTotal.
  rewrite map_fold_insert_L; [| |exact Hk].
  - destruct (decide (k.1 = campaignId)); lia.
  - intros j1 j2 z1 z2 y _ _ _.
    destruct (decide (j1.1 = campaignId)), (decide (j2.1 = campaignId)); lia.
Qed.

Lemma ledgerTotal_insert m k l campaignId :
  ledgerTotal (<[k := l]> m) campaignId
    + (if decide (k.1 = campaignId) then entriesTotal (default [] (m !! k)) else 0)
  = ledgerTotal m campaignId
    + (if decide (k.1 = campaignId) then entriesTotal l else 0).
Proof.
  destruct (m !! k) as [old|] eqn:Hk; simpl.
  - rewrite <- (insert_delete_eq m k l).
    rewrite <- (insert_delete_id m k old Hk) at 2.
    rewrite !ledgerTotal_insert_fresh by apply lookup_delete_eq.
    destruct (decide (k.1 = campaignId)); lia.
  - rewrite ledgerTotal_insert_fresh by exact Hk.
    destruct (decide (k.1 = campaignId)); simpl; lia.
Qed.

Lemma nonRefundedTotal_set_contributions st i a l j :
  nonRefundedTotal (set_contributions i a l st) j
    + (if decide (i = j) then entriesTotal (contributions_at st i a) else 0)
  = nonRefundedTotal st j + (if decide (i = j) then entriesTotal l else 0).
Proof.
  unfold nonRefundedTotal, contributions_at; simpl.
  apply (ledgerTotal_insert (contributions st) (i, a) l j).
Qed.

Lemma refundLoop_Ok l acc r :
  refundLoop l acc = Ok r ->
  r.1 = acc + entriesTotal l /\ r.2 = map markRefunded l /\ entriesTotal r.2 = 0.
Proof.
  revert acc r. induction l as [|c l IH]; intros acc r H; simpl in H.
  - injection H as <-. simpl. repeat split; lia.
  - destruct c as [am ts rf md]; simpl in *. destruct rf.
    + apply bind_Ok in H as (r0 & Hr0 & H). injection H as <-.
      apply IH in Hr0 as (-> & -> & Hz). simpl. repeat split; assumption.
    + apply bind_Ok in H as (s & Hs & H). apply checked_add_Ok in Hs as [-> _].
      apply bind_Ok in H as (r0 & Hr0 & H). injection H as <-.
      apply IH in Hr0 as (-> & -> & Hz). simpl. repeat split; [lia | assumption].
Qed.

Lemma nonRefundedTotal_set_campaign st i c j :
  nonRefundedTotal (set_campaign i c st) j = nonRefundedTotal st j.
Proof. reflexivity. Qed.

Lemma nonRefundedTotal_set_balance st v j :
  nonRefundedTotal (set_balance v st) j = nonRefundedTotal st j.
Proof. reflexivity. Qed.

Lemma nonRefundedTotal_set_counters st a b j :
  nonRefundedTotal (set_counters a b st) j = nonRefundedTotal st j.
Proof. reflexivity. Qed.

Lemma nonRefundedTotal_set_owner st v j :
  nonRefundedTotal (set_owner v st) j = nonRefundedTotal st j.
Proof. reflexivity. Qed.

Lemma nonRefundedTotal_record_vote st i a m w j :
  nonRefundedTotal (record_vote i a m w st) j = nonRefundedTotal st j.
Proof. reflexivity. Qed.

Ltac storage :=
  repeat first
    [ rewrite campaign_at_set_campaign
    | rewrite campaign_at_set_balance
    | rewrite campaign_at_set_contributions
    | rewrite campaign_at_record_vote
    | rewrite campaign_at_set_counters
    | rewrite campaign_at_set_owner
    | rewrite nonRefundedTotal_set_campaign
    | rewrite nonRefundedTotal_set_balance
    | rewrite nonRefundedTotal_set_counters
    | rewrite nonRefundedTotal_set_owner
    | rewrite nonRefundedTotal_record_vote
    | rewrite contributions_at_set_campaign
    | rewrite contributions_at_set_balance
    | rewrite contributions_at_set_contributions ].

(** Case analysis on a successful transaction: one goal per way a function
    can return, with the new state written out. *)
Ltac exec_cases H :=
  lazymatch type of H with
  | exec _ ?c _ = Ok _ => destruct c
  end;
  unfold exec, nonPayable in H; peel H;
  repeat match goal with
    | Hc : createCampaign _ _ _ _ _ _ _ _ _ _ = Ok _ |- _ =>
        unfold createCampaign in Hc; peel Hc
    end;
  try (unfold contribute, startVoting, vote, finalizeCampaign, requestRefund,
         updateCampaignStatus, transferOwnership, renounceOwnership in H;
       peel H);
  subst.

(** * The ledger invariant *)

Lemma exec_ledger_inv e c st st' out :
  ledger_inv st -> exec e c st = Ok (st', out) -> ledger_inv st'.
Proof.
  intros Hinv H j. exec_cases H; cbn [fst snd]; storage.
  all: try (repeat case_decide; subst; simpl; try congruence; apply Hinv).
  - (* contribute *)
    pose proof (nonRefundedTotal_set_contributions st campaignId (msg_sender e)
      (contributions_at st campaignId (msg_sender e) ++ [newContribution e]) j) as HT.
    rewrite entriesTotal_app in HT. simpl in HT.
    destruct (targetAmount _ <=? _); case_decide; subst; simpl;
      rewrite ?Hinv in *; lia.
  - (* requestRefund *)
    match goal with Hl : refundLoop _ _ = Ok ?r |- _ =>
      apply refundLoop_Ok in Hl as (Hr1 & Hr2 & Hr3);
      pose proof (nonRefundedTotal_set_contributions st campaignId (msg_sender e) r.2 j) as HT
    end.
    rewrite Hr3 in HT. rewrite Hr1 in *.
    case_decide; subst; simpl; rewrite ?Hinv in *; lia.
Qed.

(** * Invariants *)

Lemma reachable_ledger_inv st : reachable st -> ledger_inv st.
Proof.
  induction 1 as [d _|st e c st' out _ IH _ _ Hex].
  - intros j. reflexivity.
  - eapply exec_ledger_inv; eassumption.
Qed.

Lemma exec_backers_inv e c st st' out :
  backers_inv st -> exec e c st = Ok (st', out) -> backers_inv st'.
Proof.
  intros Hinv H j. exec_cases H; cbn [fst snd]; storage.
  all: try (repeat case_decide; subst; simpl; try congruence; apply Hinv).
  destruct (targetAmount _ <=? _); case_decide; subst; simpl;
    rewrite ?length_app; simpl; rewrite ?Hinv; try lia.
Qed.

Lemma reachable_backers_inv st : reachable st -> backers_inv st.
Proof.
  induction 1 as [d _|st e c st' out _ IH _ _ Hex].
  - intros j. reflexivity.
  - eapply exec_backers_inv; eassumption.
Qed.

Lemma exec_backed_inv e c st st' out :
  backed_inv st -> exec e c st = Ok (st', out) -> backed_inv st'.
Proof.
  intros Hinv H j b. exec_cases H; cbn [fst snd]; storage.
  all: try (repeat case_decide; subst; simpl; try congruence; apply Hinv).
  - (* contribute *)
    destruct (targetAmount _ <=? _); repeat case_decide; subst; simpl;
      try congruence; try apply Hinv.
    all: try (intros _ Hnil; apply app_eq_nil in Hnil as [_ Hnil]; discriminate Hnil).
    all: match goal with Hk : (_, _) <> (_, _) |- _ =>
           intros Hin; apply elem_of_app in Hin as [Hin|Hin];
           [apply Hinv; exact Hin | apply list_elem_of_singleton in Hin; congruence]
         end.
  - (* requestRefund *)
    match goal with Hl : refundLoop _ _ = Ok _ |- _ =>
      apply refundLoop_Ok in Hl as (_ & Hr2 & _) end.
    repeat case_decide; subst; simpl; try congruence; try apply Hinv.
    all: match goal with Hk : (_, _) = (_, _) |- _ => injection Hk as <- end.
    all: intros Hin; rewrite Hr2; intros Hnil; apply map_eq_nil in Hnil;
      revert Hnil; apply Hinv; exact Hin.
Qed.

Lemma reachable_backed_inv st : reachable st -> backed_inv st.
Proof.
  induction 1 as [d _|st e c st' out _ IH _ _ Hex].
  - intros j b Hin. apply elem_of_nil in Hin. destruct Hin.
  - eapply exec_backed_inv; eassumption.
Qed.

Lemma exec_dormant_inv e c st st' out :
  dormant_inv st -> exec e c st = Ok (st', out) -> dormant_inv st'.
Proof.
  intros Hinv H j. exec_cases H; cbn [fst snd]; storage.
  all: destruct (Hinv j) as (Hv1 & Hv2 & Hs).
  all: repeat case_decide; subst; simpl.
  all: try (repeat split; first [assumption | discriminate]).
  all: try (rewrite Hv1, Hv2 in *; discriminate).
  destruct (targetAmount _ <=? _); simpl; repeat split; first [assumption | discriminate].
Qed.

Lemma reachable_dormant_inv st : reachable st -> dormant_inv st.
Proof.
  induction 1 as [d _|st e c st' out _ IH _ _ Hex].
  - intros j. repeat split; first [reflexivity | discriminate].
  - eapply exec_dormant_inv; eassumption.
Qed.

Lemma heldTotal_insert_fresh m i c :
  m !! i = None -> heldTotal (<[i := c]> m) = held c + heldTotal m.
Proof.
  intros Hi. unfold heldTotal.
  rewrite map_fold_insert_L; [reflexivity| |exact Hi].
  intros j1 j2 z1 z2 y _ _ _. lia.
Qed.

Lemma heldTotal_insert m i c :
  heldTotal (<[i := c]> m) + held (default zeroCampaign (m !! i))
  = heldTotal m + held c.
Proof.
  destruct (m !! i) as [old|] eqn:Hi; simpl.
  - rewrite <- (insert_delete_eq m i c).
    rewrite <- (insert_delete_id m i old Hi) at 2.
    rewrite !heldTotal_insert_fresh by apply lookup_delete_eq. lia.
  - rewrite heldTotal_insert_fresh by exact Hi. unfold held. simpl. lia.
Qed.

Lemma held_le_heldTotal m i :
  held (default zeroCampaign (m !! i)) <= heldTotal m.
Proof.
  destruct (m !! i) as [c|] eqn:Hi; simpl.
  - rewrite <- (insert_delete_id m i c Hi).
    rewrite heldTotal_insert_fresh by apply lookup_delete_eq. lia.
  - unfold held. simpl. lia.
Qed.

Lemma heldTotal_set_campaign st i c :
  heldTotal (campaigns (set_campaign i c st)) + held (campaign_at st i)
  = heldTotal (campaigns st) + held c.
Proof. apply heldTotal_insert. Qed.

(** One campaign slot and the balance change together. *)
Lemma solvent_step st st1 i c' :
  solvent_inv st ->
  campaigns st1 = <[i := c']> (campaigns st) ->
  campaignIds st1 = campaignIds st ->
  campaignCount st1 = campaignCount st ->
  held c' + balance st = held (campaign_at st i) + balance st1 ->
  (fundsReleased c' = true -> status c' = Completed /\ i < campaignIds st) ->
  solvent_inv st1.
Proof.
  intros (Hbal & Hcount & Hrel) Hc Hids Hcnt Hheld Hnew.
  pose proof (heldTotal_insert (campaigns st) i c') as Hins.
  fold (campaign_at st i) in Hins.
  unfold solvent_inv. rewrite Hc, Hids, Hcnt.
  split; [lia|]. split; [exact Hcount|].
  intros j. unfold campaign_at. rewrite Hc, lookup_insert.
  destruct (decide (i = j)) as [<-|Hne]; simpl; [exact Hnew | apply Hrel].
Qed.

Lemma not_released st i s :
  solvent_inv st -> statusIs (campaign_at st i) s = true -> s <> Completed ->
  fundsReleased (campaign_at st i) = false.
Proof.
  intros (_ & _ & Hrel) Hs Hne. unfold statusIs in Hs.
  apply bool_decide_eq_true in Hs.
  destruct (fundsReleased (campaign_at st i)) eqn:Hf; [|reflexivity].
  destruct (Hrel i Hf) as [Hc _]. congruence.
Qed.

Lemma exec_solvent_inv e c st st' out :
  solvent_inv st -> exec e c st = Ok (st', out) -> solvent_inv st'.
Proof.
  intros Hinv H.
  pose proof Hinv as (Hbal & Hcount & Hrel).
  exec_cases H; cbn [fst snd].
  - (* createCampaign *)
    assert (Hf : fundsReleased (campaign_at st (campaignIds st)) = false).
    { destruct (fundsReleased _) eqn:Hf; [|reflexivity].
      destruct (Hrel _ Hf) as [_ Hlt]. lia. }
    match goal with |- context [set_campaign ?i ?c' st] =>
      pose proof (heldTotal_insert (campaigns st) i c') as Hins end.
    fold (campaign_at st (campaignIds st)) in Hins.
    unfold held in Hins. simpl in Hins.
    unfold solvent_inv.
    cbn [campaigns balance campaignIds campaignCount set_counters set_campaign].
    rewrite Hcount in *. rewrite N.mod_small by lia.
    split; [lia|]. split; [reflexivity|].
    intros j. storage. case_decide; subst; simpl.
    + rewrite Hf. discriminate.
    + intros Hj. destruct (Hrel _ Hj). split; [assumption | lia].
  - (* contribute *)
    pose proof (not_released st campaignId Active Hinv ltac:(assumption)
                  ltac:(discriminate)) as Hf.
    eapply (solvent_step st _ campaignId); [exact Hinv | reflexivity ..| |].
    + destruct (targetAmount _ <=? _); unfold held; simpl; rewrite Hf; simpl; lia.
    + destruct (targetAmount _ <=? _); simpl; rewrite Hf; discriminate.
  - (* startVoting *)
    eapply (solvent_step st _ campaignId); [exact Hinv | reflexivity ..| |].
    + reflexivity.
    + exact (Hrel campaignId).
  - (* vote, closing *)
    storage. rewrite decide_True by reflexivity.
    eapply (solvent_step st _ campaignId);
      [exact Hinv | cbn; rewrite insert_insert_eq; reflexivity | reflexivity ..| |].
    + reflexivity.
    + exact (Hrel campaignId).
  - (* vote *)
    eapply (solvent_step st _ campaignId); [exact Hinv | reflexivity ..| |].
    + reflexivity.
    + exact (Hrel campaignId).
  - (* finalizeCampaign, failure *)
    eapply (solvent_step st _ campaignId); [exact Hinv | reflexivity ..| |].
    + reflexivity.
    + simpl. intros Hf.
      match goal with Hn : negb _ = true |- _ => rewrite Hf in Hn; discriminate Hn end.
  - (* finalizeCampaign, release *)
    match goal with Hn : negb _ = true |- _ => apply negb_true_iff in Hn; rename Hn into Hf end.
    match goal with Hl : (_ <? campaignIds st) = true |- _ => apply N.ltb_lt in Hl end.
    eapply (solvent_step st _ campaignId); [exact Hinv | reflexivity ..| |].
    + unfold held; simpl. rewrite Hf. simpl in *. lia.
    + intros _. split; [reflexivity | assumption].
  - (* requestRefund *)
    pose proof (not_released st campaignId Failed Hinv ltac:(assumption)
                  ltac:(discriminate)) as Hf.
    eapply (solvent_step st _ campaignId); [exact Hinv | reflexivity ..| |].
    + unfold held; simpl. rewrite Hf. simpl in *. lia.
    + simpl. rewrite Hf. discriminate.
  - (* updateCampaignStatus, changed *)
    match goal with Hb : _ && _ = true |- _ => apply andb_true_iff in Hb as [Hs _] end.
    pose proof (not_released st campaignId Active Hinv Hs ltac:(discriminate)) as Hf.
    eapply (solvent_step st _ campaignId); [exact Hinv | reflexivity ..| |].
    + reflexivity.
    + simpl. rewrite Hf. discriminate.
  - exact Hinv.
  - exact Hinv.
  - exact Hinv.
Qed.

Lemma reachable_solvent_inv st : reachable st -> solvent_inv st.
Proof.
  induction 1 as [d _|st e c st' out _ IH _ _ Hex].
  - split; [reflexivity|]. split; [reflexivity|]. intros j Hj. discriminate Hj.
  - eapply exec_solvent_inv; eassumption.
Qed.

Lemma exec_campaignVotes e c st st' out :
  exec e c st = Ok (st', out) -> campaignVotes st' = campaignVotes st.
Proof. intros H. exec_cases H; reflexivity. Qed.

Lemma reachable_campaignVotes st : reachable st -> campaignVotes st = ∅.
Proof.
  induction 1 as [d _|st e c st' out _ IH _ _ Hex].
  - reflexivity.
  - rewrite (exec_campaignVotes _ _ _ _ _ Hex). exact IH.
Qed.

Lemma run_reachable txs st st' :
  reachable st -> Forall wf_tx txs -> run txs st = Ok st' -> reachable st'.
Proof.
  intros Hst Hwf. revert st Hst.
  induction Hwf as [|[e c] txs [He Hc] _ IH]; intros st Hst H; simpl in H.
  - injection H as <-. exact Hst.
  - apply bind_Ok in H as ([st1 out] & Hex & H).
    apply (IH st1); [|exact H].
    eapply reachable_step; eassumption.
Qed.

(** A scenario whose transactions all succeed ends in a reachable state. *)
Lemma stateAfter_reachable txs :
  Forall wf_tx txs ->
  (exists st, run txs (init admin) = Ok st) ->
  reachable (stateAfter txs).
Proof.
  intros Hwf [st Hrun]. unfold stateAfter. rewrite Hrun.
  eapply run_reachable; [|exact Hwf|exact Hrun].
  apply reachable_init. reflexivity.
Qed.

(** Closes a closed goal ([=], [<], [<=] on concrete data) by evaluation. *)
Ltac by_eval := vm_compute; first [reflexivity | discriminate | lia].

(** The same for a conjunction of such goals. *)
Ltac conj_eval := repeat match goal with |- _ /\ _ => split end; by_eval.

(** Discharges the side conditions of [stateAfter_reachable] for a concrete
    trace by evaluation. *)
Ltac scenario_reachable :=
  apply stateAfter_reachable;
  [ repeat constructor; vm_compute; reflexivity
  | eexists; vm_compute; reflexivity ].

(** * Reachability of the scenarios *)

Lemma fundedTrace_reachable : reachable (stateAfter fundedTrace).
Proof. scenario_reachable. Qed.

Lemma missedTrace_reachable : reachable (stateAfter missedTrace).
Proof. scenario_reachable. Qed.

Lemma shortTrace_reachable : reachable (stateAfter shortTrace).
Proof. scenario_reachable. Qed.

Lemma fourBackersTrace_reachable : reachable (stateAfter fourBackersTrace).
Proof. scenario_reachable. Qed.


Lemma tieTrace_reachable : reachable (stateAfter tieTrace).
Proof. scenario_reachable. Qed.

Lemma pairTrace_reachable : reachable (stateAfter pairTrace).
Proof. scenario_reachable. Qed.

Lemma boundsTrace_reachable : reachable (stateAfter boundsTrace).
Proof. scenario_reachable. Qed.

(** * What a successful call does *)

Lemma contribute_Ok e campaignId st st' out :
  contribute e campaignId st = Ok (st', out) ->
  let c := campaign_at st campaignId in
  status c = Active /\ 0 < msg_value e /\ block_timestamp e <= deadline c /\
  out = [] /\
  contributions_at st' campaignId (msg_sender e) =
    contributions_at st campaignId (msg_sender e) ++ [newContribution e] /\
  raisedAmount (campaign_at st' campaignId) = raisedAmount c + msg_value e /\
  backersCount (campaign_at st' campaignId) = backersCount c + 1 /\
  backers (campaign_at st' campaignId) = backers c ++ [msg_sender e] /\
  nonRefundedTotal st' campaignId = nonRefundedTotal st campaignId + msg_value e.
Proof.
  intros H c. subst c. unfold contribute in H. peel H. subst.
  pose proof (nonRefundedTotal_set_contributions st campaignId (msg_sender e)
    (contributions_at st campaignId (msg_sender e) ++ [newContribution e]) campaignId) as HT.
  rewrite entriesTotal_app in HT. simpl in HT.
  match goal with Hs : statusIs _ _ = true |- _ =>
    unfold statusIs in Hs; apply bool_decide_eq_true in Hs end.
  match goal with Hv : (0 <? _) = true |- _ => apply N.ltb_lt in Hv end.
  match goal with Hd : (_ <=? _) = true |- _ => apply N.leb_le in Hd end.
  storage.
  rewrite !decide_True in * by reflexivity.
  destruct (targetAmount _ <=? _); simpl; repeat split; try assumption; try lia.
Qed.

Lemma requestRefund_Ok e campaignId st st' out :
  requestRefund e campaignId st = Ok (st', out) ->
  let c := campaign_at st campaignId in
  let mine := contributions_at st campaignId (msg_sender e) in
  campaignId < campaignIds st /\ status c = Failed /\ 0 < entriesTotal mine /\
  entriesTotal mine <= raisedAmount c /\
  out = [(msg_sender e, entriesTotal mine)] /\
  contributions_at st' campaignId (msg_sender e) = map markRefunded mine /\
  raisedAmount (campaign_at st' campaignId) = raisedAmount c - entriesTotal mine /\
  nonRefundedTotal st' campaignId + entriesTotal mine = nonRefundedTotal st campaignId.
Proof.
  intros H c mine. subst c mine. unfold requestRefund in H. peel H. subst.
  match goal with Hl : refundLoop _ _ = Ok ?r |- _ =>
    apply refundLoop_Ok in Hl as (Hr1 & Hr2 & Hr3);
    pose proof (nonRefundedTotal_set_contributions st campaignId (msg_sender e) r.2
                  campaignId) as HT
  end.
  rewrite Hr3 in HT. rewrite Hr1 in *. rewrite N.add_0_l in *.
  match goal with Hs : statusIs _ _ = true |- _ =>
    unfold statusIs in Hs; apply bool_decide_eq_true in Hs end.
  repeat match goal with Hv : (_ <? _) = true |- _ => apply N.ltb_lt in Hv end.
  simpl. storage.
  rewrite !decide_True in * by reflexivity.
  simpl. repeat split; try assumption; try lia.
Qed.

(** * Backers (C5) *)




(** * The legacy vote counters (C9) *)

(** C9.  In every reachable state [votesForAllOrNothing] and
    [votesForKeepRaised] of every campaign are zero and no campaign has status
    [Failed]; hence every successful [finalizeCampaign] releases the funds
    (fee to the owner, the rest to the creator, status [Completed]), and
    [requestRefund] always reverts. *)
Theorem legacy_counters_zero_no_failure (st : State) :
  reachable st ->
  (forall campaignId,
     votesForAllOrNothing (campaign_at st campaignId) = 0 /\
     votesForKeepRaised (campaign_at st campaignId) = 0 /\
     status (campaign_at st campaignId) <> Failed) /\
  (forall e campaignId st' out,
     finalizeCampaign e campaignId st = Ok (st', out) ->
     let c := campaign_at st campaignId in
     let fee := raisedAmount c * platformFee / 1000 in
     out = [(creator c, raisedAmount c - fee); (owner st, fee)] /\
     fundsReleased (campaign_at st' campaignId) = true /\
     status (campaign_at st' campaignId) = Completed /\
     isAllOrNothing (campaign_at st' campaignId) = false) /\
  (forall e campaignId,
     requestRefund e campaignId st = Revert "Campaign does not exist" \/
     requestRefund e campaignId st = Revert "Refunds not available").
Proof.
  intros Hst. pose proof (reachable_dormant_inv st Hst) as Hinv.
  split; [exact Hinv|]. split.
  - intros e campaignId st' out H c fee. subst c fee.
    destruct (Hinv campaignId) as (Hv1 & Hv2 & _).
    unfold finalizeCampaign in H. peel H.
    + rewrite Hv1, Hv2 in *. discriminate.
    + subst. simpl. storage. rewrite decide_True by reflexivity.
      rewrite Hv1, Hv2. repeat split.
  - intros e campaignId. destruct (Hinv campaignId) as (_ & _ & Hs).
    unfold requestRefund.
    destruct (campaignId <? campaignIds st); simpl; [|left; reflexivity].
    right. unfold statusIs. rewrite bool_decide_eq_false_2 by exact Hs.
    reflexivity.
Qed.

(** A campaign that missed its target: the counters are zero, finalizing it
    releases 975 + 25, and a refund request is refused. *)
Lemma legacy_counters_zero_no_failure_witness :
  let st := stateAfter missedTrace in
  let c := campaign_at st 0 in
  (votesForAllOrNothing c = 0 /\ votesForKeepRaised c = 0 /\ status c <> Failed) /\
  (exists st', finalizeCampaign (callBy bob 0 700000) 0 st
               = Ok (st', [(founder, 975); (admin, 25)]) /\
     status (campaign_at st' 0) = Completed) /\
  requestRefund (callBy alice 0 700000) 0 st = Revert "Refunds not available".
Proof.
  intros st c.
  destruct (legacy_counters_zero_no_failure st) as (Hzero & Hfin & Href);
    [exact missedTrace_reachable|].
  split; [exact (Hzero 0)|]. split.
  - eexists. split; [vm_compute; reflexivity|].
    eapply (Hfin (callBy bob 0 700000) 0). vm_compute; reflexivity.
  - destruct (Href (callBy alice 0 700000) 0) as [H|H]; [|exact H].
    vm_compute in H. discriminate H.
Defined.

(** * The vote views (C10) *)

Lemma vote_Ok e campaignId m st st' out :
  vote e campaignId m st = Ok (st', out) ->
  exists first rest,
    contributions_at st campaignId (msg_sender e) = first :: rest /\
    votingEnabled (campaign_at st campaignId) = true /\
    voterHasVoted_at st campaignId (msg_sender e) = false /\
    out = [] /\
    campaignVotes st' = campaignVotes st /\
    campaignIds st' = campaignIds st /\
    voterHasVoted st' = <[(campaignId, msg_sender e) := true]> (voterHasVoted st) /\
    voteWeight st' = <[(campaignId, msg_sender e) := amount first]> (voteWeight st) /\
    votes st' = <[(campaignId, msg_sender e) := m]> (votes st) /\
    totalVotes (campaign_at st' campaignId) =
      totalVotes (campaign_at st campaignId) + amount first /\
    votingEnabled (campaign_at st' campaignId) =
      negb (requiredVotes (campaign_at st campaignId)
              <=? totalVotes (campaign_at st campaignId) + amount first).
Proof.
  intros H. unfold vote in H. peel H; subst.
  all: match goal with Hn : negb _ = true |- _ => apply negb_true_iff in Hn end.
  all: match goal with Hl : contributions_at _ _ _ = ?f :: ?r |- _ => exists f, r end.
  all: storage; simpl; storage; rewrite ?decide_True by reflexivity; simpl.
  all: match goal with Hc : (requiredVotes _ <=? _) = _ |- _ => rewrite ?Hc end.
  all: repeat split; try assumption; try reflexivity.
Qed.

(** C10.  In every reachable state [getVote] returns (false, false) for every
    campaign and voter and [hasVoted] returns false for every existing
    campaign (it reverts for an id that does not exist): both read
    [campaignVotes], which nothing writes.  This stays so for a voter whose
    [vote] call has just succeeded, while [voterHasVoted] holds the flag. *)
Theorem vote_views_always_false (st : State) :
  reachable st ->
  forall campaignId voter,
    getVote st campaignId voter = (false, false) /\
    hasVoted st campaignId voter =
      (if campaignId <? campaignIds st then Ok false
       else Revert "Campaign does not exist") /\
    (forall e m st' out,
       vote e campaignId m st = Ok (st', out) ->
       voterHasVoted_at st' campaignId (msg_sender e) = true /\
       getVote st' campaignId (msg_sender e) = (false, false) /\
       hasVoted st' campaignId (msg_sender e) =
         (if campaignId <? campaignIds st then Ok false
          else Revert "Campaign does not exist")).
Proof.
  intros Hst campaignId voter.
  pose proof (reachable_campaignVotes st Hst) as Hcv.
  assert (Hread : forall s w, campaignVotes s = ∅ ->
            campaignVotes_at s campaignId w = Vote.zero).
  { intros s w Hs. unfold campaignVotes_at. rewrite Hs, lookup_empty. reflexivity. }
  split; [|split].
  - unfold getVote. rewrite Hread by exact Hcv. reflexivity.
  - unfold hasVoted. rewrite Hread by exact Hcv.
    destruct (campaignId <? campaignIds st); reflexivity.
  - intros e m st' out H.
    apply vote_Ok in H
      as (first & rest & _ & _ & _ & _ & Hcv' & Hids & Hflag & _).
    rewrite Hcv in Hcv'. split; [|split].
    + unfold voterHasVoted_at. rewrite Hflag, lookup_insert_eq. reflexivity.
    + unfold getVote. rewrite Hread by exact Hcv'. reflexivity.
    + unfold hasVoted. rewrite Hread by exact Hcv'. rewrite Hids.
      destruct (campaignId <? campaignIds st); reflexivity.
Qed.

(** Alice's vote succeeds and sets [voterHasVoted]; both views still answer
    false. *)
Lemma vote_views_always_false_witness :
  let st := stateAfter fourBackersTrace in
  let st' := stateOf (vote (callBy alice 0 2500) 0 Reward st) st in
  getVote st 0 alice = (false, false) /\
  hasVoted st 0 alice = Ok false /\
  voterHasVoted_at st' 0 alice = true /\
  getVote st' 0 alice = (false, false) /\
  hasVoted st' 0 alice = Ok false.
Proof.
  intros st st'.
  destruct (vote_views_always_false st) with (campaignId := 0) (voter := alice)
    as (Hget & Hhas & Hafter); [exact fourBackersTrace_reachable|].
  split; [exact Hget|]. split; [exact Hhas|].
  apply (Hafter (callBy alice 0 2500) Reward st' []).
  vm_compute; reflexivity.
Defined.

(** * Disbursement (C2) *)

Lemma fee_is_250_bps (raised : N) : raised * platformFee / 1000 = raised * 250 / 10000.
Proof.
  unfold platformFee.
  replace (raised * 250) with (raised * 25 * 10) by lia.
  replace 10000 with (1000 * 10) by reflexivity.
  rewrite N.Div0.div_mul_cancel_r by discriminate. reflexivity.
Qed.

Lemma fee_le_raised (raised : N) : raised * platformFee / 1000 <= raised.
Proof.
  unfold platformFee. apply N.Div0.div_le_upper_bound. lia.
Qed.

(** The release path of [finalizeCampaign].  In a reachable state, for an
    existing campaign with status [UnderVoting] whose voting deadline has
    passed, a call by anyone succeeds whenever the creator and the owner
    accept the ether (and raisedAmount * 25 fits in a uint256): fee =
    floor(raisedAmount * 25 / 1000), which is floor(raisedAmount * 250 /
    10000), goes to the owner and raisedAmount - fee to the creator;
    [fundsReleased] becomes true and the status [Completed]. *)
Lemma finalizeCampaign_releases_funds (e : Env) (campaignId : N) (st : State) :
  let c := campaign_at st campaignId in
  let fee := raisedAmount c * platformFee / 1000 in
  reachable st ->
  campaignId < campaignIds st ->
  votingDeadline c < block_timestamp e ->
  status c = UnderVoting ->
  fundsReleased c = false ->
  raisedAmount c * platformFee < UINT256_MODULUS ->
  accepts e (creator c) = true ->
  accepts e (owner st) = true ->
  exists st',
    finalizeCampaign e campaignId st
      = Ok (st', [(creator c, raisedAmount c - fee); (owner st, fee)]) /\
    fee = raisedAmount c * 250 / 10000 /\
    fundsReleased (campaign_at st' campaignId) = true /\
    status (campaign_at st' campaignId) = Completed /\
    balance st' = balance st - raisedAmount c /\
    (raisedAmount c = 1000 -> raisedAmount c - fee = 975 /\ fee = 25) /\
    (forall e2, exists reason,
        finalizeCampaign e2 campaignId st' = Revert reason /\
        (votingDeadline c < block_timestamp e2 ->
         reason = "Campaign not in voting state"%string)).
Proof.
  intros c fee Hreach Hid Hdl Hst Hrel Hmul Hacc1 Hacc2.
  pose proof (fee_le_raised (raisedAmount c)) as Hfee. fold fee in Hfee.
  assert (Hb : (votesForKeepRaised c <? votesForAllOrNothing c)
               && (raisedAmount c <? targetAmount c) = false).
  { destruct (reachable_dormant_inv st Hreach campaignId) as (Hv1 & Hv2 & _).
    fold c in Hv1, Hv2. rewrite Hv1, Hv2. reflexivity. }
  assert (Hbal : raisedAmount c <= balance st).
  { destruct (reachable_solvent_inv st Hreach) as (Hheld & _).
    pose proof (held_le_heldTotal (campaigns st) campaignId) as Hle.
    fold (campaign_at st campaignId) in Hle. fold c in Hle.
    unfold held in Hle. rewrite Hrel in Hle. lia. }
  eexists. split; [|split; [apply fee_is_250_bps|]].
  - unfold finalizeCampaign, statusIs, checked_mul, checked_sub, transfer.
    fold c.
    rewrite (proj2 (N.ltb_lt _ _) Hid), (proj2 (N.ltb_lt _ _) Hdl).
    rewrite Hst, Hrel. simpl. rewrite Hb.
    rewrite (proj2 (N.ltb_lt _ _) Hmul). simpl. fold fee.
    rewrite (proj2 (N.leb_le _ _) Hfee). simpl.
    rewrite (proj2 (N.leb_le (raisedAmount c - fee) (balance st)) ltac:(lia)).
    rewrite Hacc1. simpl.
    rewrite (proj2 (N.leb_le fee (balance st - (raisedAmount c - fee))) ltac:(lia)).
    rewrite Hacc2. simpl. reflexivity.
  - simpl. storage. rewrite decide_True by reflexivity. simpl.
    repeat split.
    + lia.
    + subst fee. rewrite H. reflexivity.
    + subst fee. rewrite H. reflexivity.
    + intros e2. unfold finalizeCampaign, statusIs. simpl. storage.
      rewrite decide_True by reflexivity. simpl.
      rewrite (proj2 (N.ltb_lt _ _) Hid). simpl.
      destruct (votingDeadline c <? block_timestamp e2) eqn:Ht; simpl.
      * eexists; split; [reflexivity|]. intros _. reflexivity.
      * eexists; split; [reflexivity|]. intros Hlt.
        apply N.ltb_lt in Hlt. congruence.
Qed.

(** 1000 raised against a target of 2000, finalized after the voting deadline:
    975 to the founder, 25 to the owner; a second call is refused. *)
Lemma finalizeCampaign_releases_funds_witness :
  let st := stateAfter missedTrace in
  exists st',
    finalizeCampaign (callBy bob 0 700000) 0 st
      = Ok (st', [(founder, 975); (admin, 25)]) /\
    fundsReleased (campaign_at st' 0) = true /\
    status (campaign_at st' 0) = Completed /\
    finalizeCampaign (callBy founder 0 700100) 0 st'
      = Revert "Campaign not in voting state".
Proof.
  intros st.
  destruct (finalizeCampaign_releases_funds (callBy bob 0 700000) 0 st)
    as (st' & Hrun & _ & Hrel & Hstatus & _ & _ & Hagain);
    [ exact missedTrace_reachable | by_eval | by_eval | by_eval | by_eval
    | by_eval | by_eval | by_eval | ].
  exists st'. split; [exact Hrun|]. split; [exact Hrel|]. split; [exact Hstatus|].
  destruct (Hagain (callBy founder 0 700100)) as (reason & Hrev & Hreason).
  rewrite Hrev, Hreason; [reflexivity | vm_compute; reflexivity].
Defined.

(** C2, at a failing input.  The founder opens a campaign with target 1000
    and Alice contributes 1000: the campaign is [Completed] with
    [fundsReleased] false and 1000 raised, the state from which the claim
    lets the creator release the funds.  Every [finalizeCampaign] call on it
    reverts, whoever calls and whenever: the function only releases from
    status [UnderVoting]. *)
Lemma completed_campaign_cannot_release :
  let st := stateAfter fundedTrace in
  reachable st /\
  status (campaign_at st 0) = Completed /\
  fundsReleased (campaign_at st 0) = false /\
  raisedAmount (campaign_at st 0) = 1000 /\
  creator (campaign_at st 0) = founder /\
  forall e, exists reason, exec e (FinalizeCampaign 0) st = Revert reason.
Proof.
  intros st. split; [exact fundedTrace_reachable|].
  assert (Hs : status (campaign_at st 0) = Completed) by (vm_compute; reflexivity).
  split; [exact Hs|].
  split; [vm_compute; reflexivity|].
  split; [vm_compute; reflexivity|].
  split; [vm_compute; reflexivity|].
  intros e. unfold exec, nonPayable, finalizeCampaign, statusIs. rewrite Hs.
  destruct (msg_value e =? 0); simpl; [|eexists; reflexivity].
  destruct (0 <? campaignIds st); simpl; [|eexists; reflexivity].
  destruct (votingDeadline (campaign_at st 0) <? block_timestamp e); simpl;
    eexists; reflexivity.
Qed.

(** * Opening the vote (C6) *)

(** C6, as the code has it.  A [startVoting] call by the creator, while voting
    is not enabled, succeeds exactly when raisedAmount >= targetAmount (it
    then opens a 7-day window and sets requiredVotes = floor(backersCount /
    2)); with raisedAmount < targetAmount it reverts with "Target not
    reached", whether or not the deadline has passed. *)
Theorem startVoting_needs_target (e : Env) (campaignId : N) (st : State) :
  let c := campaign_at st campaignId in
  msg_sender e = creator c ->
  votingEnabled c = false ->
  block_timestamp e + 7 * 86400 < UINT256_MODULUS ->
  (targetAmount c <= raisedAmount c ->
   startVoting e campaignId st =
     Ok (set_campaign campaignId
           (set_requiredVotes (backersCount c / 2)
              (set_votingEndTime (block_timestamp e + 7 * 86400)
                 (set_votingEnabled true c))) st, [])) /\
  (raisedAmount c < targetAmount c ->
   startVoting e campaignId st = Revert "Target not reached").
Proof.
  intros c Hcreator Hoff Htime.
  unfold startVoting, checked_add. fold c.
  rewrite Hcreator, N.eqb_refl, Hoff. simpl.
  split; intros H.
  - rewrite (proj2 (N.leb_le _ _) H). simpl.
    rewrite (proj2 (N.ltb_lt _ _) Htime). reflexivity.
  - rewrite (proj2 (N.leb_gt _ _) H). reflexivity.
Qed.

(** Target missed and deadline passed: refused.  Target reached: voting opens
    for 7 days with requiredVotes = floor(1 / 2) = 0. *)
Lemma startVoting_needs_target_witness :
  let st := stateAfter shortTrace in
  let st2 := stateAfter fundedTrace in
  (deadline (campaign_at st 0) < 6000 /\
   startVoting (callBy founder 0 6000) 0 st = Revert "Target not reached") /\
  (exists st', startVoting (callBy founder 0 3000) 0 st2 = Ok (st', []) /\
               requiredVotes (campaign_at st' 0) = 0 /\
               votingEndTime (campaign_at st' 0) = 607800).
Proof.
  intros st st2. split.
  - split; [vm_compute; reflexivity|].
    apply (startVoting_needs_target (callBy founder 0 6000) 0 st);
      vm_compute; reflexivity.
  - eexists. split.
    + apply (startVoting_needs_target (callBy founder 0 3000) 0 st2);
        vm_compute; first [reflexivity | discriminate].
    + split; vm_compute; reflexivity.
Defined.

(** C6 as stated fails: campaign 0 has raised 400 of 1000 and its deadline
    (5000) has passed at time 6000, yet the creator's [startVoting] is
    rejected. *)
Lemma startVoting_rejected_after_deadline :
  let st := stateAfter shortTrace in
  let e := callBy founder 0 6000 in
  reachable st /\
  msg_sender e = creator (campaign_at st 0) /\
  votingEnabled (campaign_at st 0) = false /\
  deadline (campaign_at st 0) < block_timestamp e /\
  raisedAmount (campaign_at st 0) < targetAmount (campaign_at st 0) /\
  exec e (StartVoting 0) st = Revert "Target not reached".
Proof.
  intros st e. split; [exact shortTrace_reachable|].
  conj_eval.
Qed.

(** * Contribution bounds (C8) *)

(** C8, as the code has it.  [contribute] does not read [minContribution] or
    [maxContribution]: for an Active campaign before its deadline every
    contribution of a positive amount succeeds (short of a uint256 overflow),
    whatever the bounds of the campaign, and adds the amount to
    [raisedAmount]; a contribution of 0 is the only amount rejected. *)
Theorem contribute_ignores_bounds (e : Env) (campaignId : N) (st : State) :
  let c := campaign_at st campaignId in
  status c = Active ->
  block_timestamp e <= deadline c ->
  raisedAmount c + msg_value e < UINT256_MODULUS ->
  backersCount c + 1 < UINT256_MODULUS ->
  (0 < msg_value e ->
   exists st',
     contribute e campaignId st = Ok (st', []) /\
     raisedAmount (campaign_at st' campaignId) = raisedAmount c + msg_value e) /\
  (msg_value e = 0 ->
   contribute e campaignId st = Revert "Contribution must be greater than 0").
Proof.
  intros c Hactive Hdl Hraised Hcount.
  assert (Hs : statusIs c Active = true).
  { unfold statusIs. rewrite Hactive. reflexivity. }
  split.
  - intros Hpos.
    destruct (contribute e campaignId st) as [[st' out]|reason|code|] eqn:Hrun.
    + pose proof (contribute_Ok _ _ _ _ _ Hrun) as (_ & _ & _ & -> & _ & Hr & _).
      exists st'. split; [reflexivity | exact Hr].
    + exfalso. revert Hrun. unfold contribute, checked_add. fold c.
      rewrite Hs, (proj2 (N.ltb_lt _ _) Hpos), (proj2 (N.leb_le _ _) Hdl). simpl.
      rewrite (proj2 (N.ltb_lt _ _) Hraised), (proj2 (N.ltb_lt _ _) Hcount).
      discriminate.
    + exfalso. revert Hrun. unfold contribute, checked_add. fold c.
      rewrite Hs, (proj2 (N.ltb_lt _ _) Hpos), (proj2 (N.leb_le _ _) Hdl). simpl.
      rewrite (proj2 (N.ltb_lt _ _) Hraised), (proj2 (N.ltb_lt _ _) Hcount).
      discriminate.
    + exfalso. revert Hrun. unfold contribute, checked_add. fold c.
      rewrite Hs, (proj2 (N.ltb_lt _ _) Hpos), (proj2 (N.leb_le _ _) Hdl). simpl.
      rewrite (proj2 (N.ltb_lt _ _) Hraised), (proj2 (N.ltb_lt _ _) Hcount).
      discriminate.
  - intros Hzero. unfold contribute. fold c. rewrite Hs, Hzero. reflexivity.
Qed.

(** Bounds 10..1000: contributions of 9 and of 1001 are accepted, one of 0 is
    refused. *)
Lemma contribute_ignores_bounds_witness :
  let st := stateAfter [openCampaign 1000] in
  minContribution (campaign_at st 0) = 10 /\
  maxContribution (campaign_at st 0) = 1000 /\
  (exists st', contribute (callBy alice 9 2000) 0 st = Ok (st', []) /\
               raisedAmount (campaign_at st' 0) = 0 + 9) /\
  (exists st', contribute (callBy alice 1001 2000) 0 st = Ok (st', []) /\
               raisedAmount (campaign_at st' 0) = 0 + 1001) /\
  contribute (callBy alice 0 2000) 0 st = Revert "Contribution must be greater than 0".
Proof.
  intros st.
  split; [vm_compute; reflexivity|]. split; [vm_compute; reflexivity|].
  split; [|split].
  - apply (contribute_ignores_bounds (callBy alice 9 2000) 0 st); by_eval.
  - apply (contribute_ignores_bounds (callBy alice 1001 2000) 0 st); by_eval.
  - apply (contribute_ignores_bounds (callBy alice 0 2000) 0 st); by_eval.
Defined.

(** C8 as stated fails: on a campaign with bounds 10..1000, still Active and
    before its deadline, a contribution of 9 = min - 1 and one of 1001 =
    max + 1 both succeed and are added to [raisedAmount]. *)
Lemma contributions_outside_bounds_accepted :
  let st0 := stateAfter [openCampaign 5000] in
  let st := stateAfter boundsTrace in
  reachable st /\
  minContribution (campaign_at st0 0) = 10 /\
  maxContribution (campaign_at st0 0) = 1000 /\
  status (campaign_at st0 0) = Active /\
  run [(callBy alice 9 2000, Contribute 0); (callBy bob 1001 2100, Contribute 0)] st0
    = Ok st /\
  raisedAmount (campaign_at st 0) = 1010 /\
  getContributions st 0 alice = [mkContribution 9 2000 false Donation] /\
  getContributions st 0 bob = [mkContribution 1001 2100 false Donation].
Proof.
  intros st0 st. split; [exact boundsTrace_reachable|].
  conj_eval.
Qed.

(** * A recorded vote stays *)

Lemma exec_keeps_cast_vote e c st st' out i a :
  exec e c st = Ok (st', out) ->
  voterHasVoted_at st i a = true ->
  voterHasVoted_at st' i a = true /\
  voteWeight_at st' i a = voteWeight_at st i a /\
  votes_at st' i a = votes_at st i a.
Proof.
  intros H Hvoted. exec_cases H; cbn [fst snd].
  all: try (repeat split; first [exact Hvoted | reflexivity]).
  all: match goal with Hn : negb _ = true |- _ => apply negb_true_iff in Hn end.
  all: assert (Hne : (campaignId, msg_sender e) <> (i, a))
         by (intros Heq; injection Heq as ? ?; subst; congruence).
  all: unfold voterHasVoted_at, voteWeight_at, votes_at in *; simpl.
  all: rewrite !lookup_insert_ne by exact Hne.
  all: repeat split; first [exact Hvoted | reflexivity].
Qed.

Lemma steps_keep_cast_vote st st' i a :
  steps st st' ->
  voterHasVoted_at st i a = true ->
  voterHasVoted_at st' i a = true /\ voteWeight_at st' i a = voteWeight_at st i a.
Proof.
  induction 1 as [st|st e c st1 out st2 Hex _ IH]; intros Hvoted.
  - split; [exact Hvoted | reflexivity].
  - destruct (exec_keeps_cast_vote _ _ _ _ _ i a Hex Hvoted) as (Hv1 & Hw1 & _).
    destruct (IH Hv1) as (Hv2 & Hw2). split; [exact Hv2 | congruence].
Qed.

(** * The quorum (C3) *)

(** C3, at a failing input.  Four backers of 100 each; [startVoting] sets
    requiredVotes = floor(4 / 2) = 2.  The first vote adds its weight, 100, to
    [totalVotes], which is then compared with the headcount 2: voting closes
    after one voter, and the second backer can no longer vote. *)
Theorem quorum_counts_weight_not_voters :
  let st := stateAfter fourBackersTrace in
  let st' := stateOf (vote (callBy alice 0 2500) 0 Reward st) st in
  reachable st /\
  backersCount (campaign_at st 0) = 4 /\
  requiredVotes (campaign_at st 0) = 2 /\
  votingEnabled (campaign_at st 0) = true /\
  vote (callBy alice 0 2500) 0 Reward st = Ok (st', []) /\
  map_to_list (voterHasVoted st') = [((0, alice), true)] /\
  totalVotes (campaign_at st' 0) = 100 /\
  votingEnabled (campaign_at st' 0) = false /\
  vote (callBy bob 0 2600) 0 Reward st' = Revert "Voting not started".
Proof.
  intros st st'. split; [exact fourBackersTrace_reachable|].
  conj_eval.
Qed.

(** * Winner selection *)

Lemma modeIndex_inj (m1 m2 : FundingMode) : modeIndex m1 = modeIndex m2 -> m1 = m2.
Proof. destruct m1, m2; simpl; intros H; first [reflexivity | discriminate H]. Qed.

Lemma tallyOf_insert (modeVotes : list N) (m m' : FundingMode) (x : N) :
  length modeVotes = 4%nat ->
  tallyOf (<[modeIndex m' := x]> modeVotes) m =
  if decide (m' = m) then x else tallyOf modeVotes m.
Proof.
  intros Hlen. unfold tallyOf. destruct (decide (m' = m)) as [->|Hne].
  - rewrite list_lookup_insert_eq; [reflexivity|].
    rewrite Hlen. destruct m; simpl; lia.
  - rewrite list_lookup_insert_ne; [reflexivity|].
    intros Heq. apply Hne. apply modeIndex_inj. exact Heq.
Qed.

Lemma modeTally_cons st campaignId b rest m :
  modeTally st campaignId (b :: rest) m =
  votedWeight st campaignId m b + modeTally st campaignId rest m.
Proof. reflexivity. Qed.

Lemma tallyVotes_Ok st campaignId bs :
  forall modeVotes modeVotes',
    length modeVotes = 4%nat ->
    tallyVotes st campaignId bs modeVotes = Ok modeVotes' ->
    length modeVotes' = 4%nat /\
    forall m, tallyOf modeVotes' m = tallyOf modeVotes m + modeTally st campaignId bs m.
Proof.
  induction bs as [|b rest IH]; intros mv mv' Hlen H; simpl in H.
  - injection H as <-. split; [exact Hlen|]. intros m. simpl. lia.
  - destruct (voterHasVoted_at st campaignId b) eqn:Hvoted.
    + apply bind_Ok in H as (sum & Hsum & H).
      apply checked_add_Ok in Hsum as [-> _].
      apply IH in H as (Hlen' & Htally); [|rewrite length_insert; exact Hlen].
      split; [exact Hlen'|]. intros m. rewrite Htally.
      rewrite tallyOf_insert by exact Hlen.
      fold (tallyOf mv (votes_at st campaignId b)).
      rewrite modeTally_cons. unfold votedWeight. rewrite Hvoted. simpl.
      destruct (decide (votes_at st campaignId b = m)) as [->|Hne].
      * rewrite bool_decide_eq_true_2 by reflexivity. lia.
      * rewrite bool_decide_eq_false_2 by exact Hne. lia.
    + apply IH in H as (Hlen' & Htally); [|exact Hlen].
      split; [exact Hlen'|]. intros m. rewrite Htally.
      rewrite modeTally_cons. unfold votedWeight. rewrite Hvoted. simpl. lia.
Qed.

(** The scan returns the lowest-ordinal mode among those of greatest tally. *)
Lemma findWinner_spec (modeVotes : list N) (m : FundingMode) :
  tallyOf modeVotes m <= tallyOf modeVotes (findWinner modeVotes) /\
  (tallyOf modeVotes m = tallyOf modeVotes (findWinner modeVotes) ->
   (modeIndex (findWinner modeVotes) <= modeIndex m)%nat).
Proof.
  unfold findWinner, tallyOf. cbn [fold_left scanStep modeOfIndex].
  repeat (match goal with
          | |- context [?x <? ?y] => destruct (N.ltb_spec x y)
          end; cbn [fst snd scanStep]).
  all: destruct m; cbn [modeIndex modeOfIndex snd]; lia.
Qed.

Lemma modeTally_pair st campaignId a b m :
  modeTally st campaignId [a; b] m =
  votedWeight st campaignId m a + votedWeight st campaignId m b.
Proof. unfold modeTally. simpl. lia. Qed.

(** Where [endVoting] puts the winner: over the tallies of the backers array
    it is the lowest-ordinal mode of greatest tally. *)
Lemma endVoting_winner (campaignId : N) (st st' : State) :
  endVoting campaignId st = Ok st' ->
  exists bs,
    getCampaignBackers st campaignId = Ok bs /\
    votingEnabled (campaign_at st' campaignId) = false /\
    let winner := currentMode (campaign_at st' campaignId) in
    let tally := modeTally st campaignId bs in
    (forall m, tally m <= tally winner) /\
    (forall m, tally m = tally winner -> (modeIndex winner <= modeIndex m)%nat) /\
    (forall w,
       (forall m, tally m <= tally w) ->
       (forall m, tally m = tally w -> (modeIndex w <= modeIndex m)%nat) ->
       w = winner) /\
    (forall a b,
       bs = [a; b] -> a <> b ->
       voterHasVoted_at st campaignId a = true ->
       voterHasVoted_at st campaignId b = true ->
       0 < voteWeight_at st campaignId a ->
       voteWeight_at st campaignId a = voteWeight_at st campaignId b ->
       votes_at st campaignId a <> votes_at st campaignId b ->
       modeIndex winner =
         Nat.min (modeIndex (votes_at st campaignId a))
                 (modeIndex (votes_at st campaignId b))).
Proof.
  intros H. apply endVoting_Ok in H as (bs & mv & Hbs & Hmv & ->).
  exists bs. split; [exact Hbs|].
  storage. rewrite decide_True by reflexivity. cbn [votingEnabled currentMode
    set_votingEnabled set_currentMode].
  split; [reflexivity|].
  apply tallyVotes_Ok in Hmv as (_ & Htally); [|reflexivity].
  assert (Heq : forall m, modeTally st campaignId bs m = tallyOf mv m).
  { intros m. rewrite Htally. unfold tallyOf. destruct m; simpl; lia. }
  assert (Hmax : forall m, modeTally st campaignId bs m
                           <= modeTally st campaignId bs (findWinner mv)).
  { intros m. rewrite !Heq. apply findWinner_spec. }
  assert (Htie : forall m, modeTally st campaignId bs m
                           = modeTally st campaignId bs (findWinner mv) ->
                           (modeIndex (findWinner mv) <= modeIndex m)%nat).
  { intros m. rewrite !Heq. apply findWinner_spec. }
  split; [exact Hmax|]. split; [exact Htie|]. split.
  - intros w Hw1 Hw2. apply modeIndex_inj.
    pose proof (Hw1 (findWinner mv)) as H1. pose proof (Hmax w) as H2.
    assert (E : modeTally st campaignId bs w
                = modeTally st campaignId bs (findWinner mv)) by lia.
    pose proof (Htie w E). pose proof (Hw2 (findWinner mv) (eq_sym E)). lia.
  - intros a b -> Hab Hva Hvb Hpos Hw Hdiff.
    set (winner := findWinner mv) in *.
    pose proof (Hmax (votes_at st campaignId a)) as Ha.
    pose proof (Htie (votes_at st campaignId a)) as Hta.
    pose proof (Htie (votes_at st campaignId b)) as Htb.
    rewrite !modeTally_pair in Ha, Hta, Htb. unfold votedWeight in Ha, Hta, Htb.
    rewrite Hva, Hvb in Ha, Hta, Htb. simpl in Ha, Hta, Htb.
    rewrite (bool_decide_eq_true_2 (votes_at st campaignId a = votes_at st campaignId a))
      in Ha, Hta by reflexivity.
    rewrite (bool_decide_eq_true_2 (votes_at st campaignId b = votes_at st campaignId b))
      in Htb by reflexivity.
    rewrite (bool_decide_eq_false_2 (votes_at st campaignId b = votes_at st campaignId a))
      in Ha, Hta by congruence.
    rewrite (bool_decide_eq_false_2 (votes_at st campaignId a = votes_at st campaignId b))
      in Htb by congruence.
    destruct (decide (votes_at st campaignId a = winner)) as [Ea|Na];
      destruct (decide (votes_at st campaignId b = winner)) as [Eb|Nb].
    + congruence.
    + rewrite (bool_decide_eq_true_2 _ Ea), (bool_decide_eq_false_2 _ Nb) in *.
      rewrite <- Ea in *. specialize (Htb ltac:(lia)). lia.
    + rewrite (bool_decide_eq_false_2 _ Na), (bool_decide_eq_true_2 _ Eb) in *.
      rewrite <- Eb in *. specialize (Hta ltac:(lia)). lia.
    + rewrite (bool_decide_eq_false_2 _ Na), (bool_decide_eq_false_2 _ Nb) in *.
      lia.
Qed.


Lemma copyBackers_all st campaignId (l : list N) :
  (forall b, b ∈ l -> contributions_at st campaignId b <> []) ->
  copyBackers st campaignId l = l.
Proof.
  induction l as [|b l IH]; intros Hall; simpl; [reflexivity|].
  destruct (contributions_at st campaignId b) eqn:Hb.
  - exfalso. apply (Hall b); [left | exact Hb].
  - simpl. rewrite IH; [reflexivity|].
    intros b' Hin. apply Hall. right. exact Hin.
Qed.

(** With one entry per count and no entry without contributions,
    [getCampaignBackers] returns [backers] as it is. *)
Lemma getCampaignBackers_all st campaignId :
  backersCount (campaign_at st campaignId)
    = N.of_nat (length (backers (campaign_at st campaignId))) ->
  (forall b, b ∈ backers (campaign_at st campaignId) ->
             contributions_at st campaignId b <> []) ->
  getCampaignBackers st campaignId = Ok (backers (campaign_at st campaignId)).
Proof.
  intros Hcount Hall. unfold getCampaignBackers.
  rewrite Hcount, N.leb_refl, Nat2N.id, firstn_all.
  rewrite copyBackers_all by exact Hall.
  rewrite Nat.sub_diag. simpl. rewrite app_nil_r. reflexivity.
Qed.

(** A vote that leaves voting closed has run [endVoting] on the storage with
    the vote recorded. *)
Lemma vote_closing e campaignId m st st' out :
  vote e campaignId m st = Ok (st', out) ->
  votingEnabled (campaign_at st' campaignId) = false ->
  exists first rest,
    contributions_at st campaignId (msg_sender e) = first :: rest /\
    endVoting campaignId
      (set_campaign campaignId
         (set_totalVotes (totalVotes (campaign_at st campaignId) + amount first)
            (campaign_at st campaignId))
         (record_vote campaignId (msg_sender e) m (amount first) st))
    = Ok st'.
Proof.
  intros H Hclosed. unfold vote in H.
  apply bind_Ok in H as (? & Hen & H). apply require_Ok in Hen.
  apply bind_Ok in H as (? & _ & H).
  apply bind_Ok in H as (? & _ & H).
  destruct (contributions_at st campaignId (msg_sender e)) as [|first rest];
    [discriminate H|].
  cbv zeta in H.
  apply bind_Ok in H as (total & Htotal & H).
  apply checked_add_Ok in Htotal as [-> _].
  exists first, rest. split; [reflexivity|].
  destruct (requiredVotes (campaign_at st campaignId) <=? _).
  - apply bind_Ok in H as (st1 & Hend & H). injection H as <- _. exact Hend.
  - injection H as <- _. revert Hclosed. storage.
    rewrite decide_True by reflexivity. simpl. congruence.
Qed.

(** How a closing vote picks the winner.  The tally of a mode is taken by
    walking [backers] and adding the weight of every entry that voted for
    the mode, so the weight of a voter enters it once per entry of
    [backers]; the winner is the mode of greatest tally and, among modes of
    equal tally, the one of lowest ordinal, which fixes it uniquely.  When
    [backers] is two distinct backers who cast votes of equal positive weight
    for different modes, the lower-ordinal of the two modes wins. *)
Lemma closing_vote_picks_lowest_top_mode (e : Env) (campaignId : N)
    (m : FundingMode) (st st' : State) (out : list Transfer) :
  reachable st ->
  vote e campaignId m st = Ok (st', out) ->
  votingEnabled (campaign_at st' campaignId) = false ->
  let winner := currentMode (campaign_at st' campaignId) in
  let tally := modeTally st' campaignId (backers (campaign_at st' campaignId)) in
  (forall m', tally m' <= tally winner) /\
  (forall m', tally m' = tally winner -> (modeIndex winner <= modeIndex m')%nat) /\
  (forall w,
     (forall m', tally m' <= tally w) ->
     (forall m', tally m' = tally w -> (modeIndex w <= modeIndex m')%nat) ->
     w = winner) /\
  (forall a b,
     backers (campaign_at st' campaignId) = [a; b] -> a <> b ->
     voterHasVoted_at st' campaignId a = true ->
     voterHasVoted_at st' campaignId b = true ->
     0 < voteWeight_at st' campaignId a ->
     voteWeight_at st' campaignId a = voteWeight_at st' campaignId b ->
     votes_at st' campaignId a <> votes_at st' campaignId b ->
     modeIndex winner =
       Nat.min (modeIndex (votes_at st' campaignId a))
               (modeIndex (votes_at st' campaignId b))).
Proof.
  intros Hst H Hclosed.
  apply vote_closing in H as (first & rest & _ & Hend); [|exact Hclosed].
  set (mid := set_campaign campaignId _ _) in Hend.
  assert (Hbackers : getCampaignBackers mid campaignId
                     = Ok (backers (campaign_at st campaignId))).
  { pose proof (getCampaignBackers_all mid campaignId) as Hall.
    subst mid. revert Hall. storage. rewrite decide_True by reflexivity.
    cbn [backers backersCount set_totalVotes]. intros Hall. apply Hall.
    - apply (reachable_backers_inv st Hst).
    - intros b Hin. apply (reachable_backed_inv st Hst campaignId b Hin). }
  pose proof (endVoting_winner campaignId mid st' Hend)
    as (bs & Hbs & _ & Hwin).
  rewrite Hbackers in Hbs. injection Hbs as <-.
  pose proof (endVoting_Ok campaignId mid st' Hend) as (_ & mv & _ & _ & Hst').
  assert (Hsame : backers (campaign_at st' campaignId)
                  = backers (campaign_at st campaignId)).
  { rewrite Hst'. subst mid. storage. rewrite !decide_True by reflexivity.
    reflexivity. }
  rewrite Hsame.
  assert (Hstorage : voterHasVoted st' = voterHasVoted mid /\
                     voteWeight st' = voteWeight mid /\ votes st' = votes mid).
  { rewrite Hst'. repeat split. }
  destruct Hstorage as (Hs1 & Hs2 & Hs3).
  assert (Htally : forall bs m',
            modeTally st' campaignId bs m' = modeTally mid campaignId bs m').
  { intros bs m'. unfold modeTally, votedWeight, voterHasVoted_at, voteWeight_at,
      votes_at. rewrite Hs1, Hs2, Hs3. reflexivity. }
  unfold voterHasVoted_at, voteWeight_at, votes_at.
  rewrite Hs1, Hs2, Hs3.
  fold (voterHasVoted_at mid campaignId) (voteWeight_at mid campaignId)
       (votes_at mid campaignId).
  cbv zeta in Hwin |- *.
  destruct Hwin as (Hmax & Htie & Huniq & Hpair).
  repeat split.
  - intros m'. rewrite !Htally. apply Hmax.
  - intros m'. rewrite !Htally. apply Htie.
  - intros w Hw1 Hw2. apply Huniq.
    + intros m'. rewrite <- !Htally. apply Hw1.
    + intros m'. rewrite <- !Htally. apply Hw2.
  - intros a b Hab. apply Hpair. exact Hab.
Qed.

(** Alice and Bob, one contribution each, vote Reward and Debit with weight
    10: Debit, the lower ordinal, wins. *)
Lemma closing_vote_picks_lowest_top_mode_witness :
  let st := stateAfter pairTrace in
  let st' := stateOf (vote (callBy bob 0 2600) 0 Debit st) st in
  backers (campaign_at st' 0) = [alice; bob] /\
  votes_at st' 0 alice = Reward /\
  votes_at st' 0 bob = Debit /\
  currentMode (campaign_at st' 0) = Debit.
Proof.
  intros st st'.
  split; [by_eval|]. split; [by_eval|]. split; [by_eval|].
  destruct (closing_vote_picks_lowest_top_mode (callBy bob 0 2600) 0 Debit st st' [])
    as (_ & _ & _ & Hpair); [exact pairTrace_reachable | by_eval | by_eval |].
  apply modeIndex_inj.
  apply (Hpair alice bob).
  - by_eval.
  - by_eval.
  - by_eval.
  - by_eval.
  - by_eval.
  - by_eval.
  - by_eval.
Defined.

(** * Further invariants *)

Lemma exec_unborn_inv e c st st' out :
  campaignCount st = campaignIds st ->
  unborn_inv st -> exec e c st = Ok (st', out) -> unborn_inv st'.
Proof.
  intros Hcount Hinv H j. exec_cases H; cbn [fst snd].
  all: cbn [campaignIds set_counters set_campaign set_balance set_contributions
            record_vote set_owner]; storage.
  all: intros Hj.
  all: try (repeat case_decide; subst; simpl; try congruence; apply Hinv; exact Hj).
  - (* createCampaign *)
    rewrite Hcount in *. rewrite N.mod_small in Hj by lia.
    rewrite decide_False by lia. apply Hinv. lia.
  - (* contribute *)
    case_decide; [subst j|apply Hinv; exact Hj].
    destruct (Hinv campaignId Hj) as [Hd Hc].
    match goal with Hle : (_ <=? deadline _) = true |- _ =>
      apply N.leb_le in Hle; rewrite Hd in Hle end.
    destruct (targetAmount _ <=? _); simpl; split; first [assumption | lia].
Qed.

(** Reads of the two-key mappings after a write, down to map lookups. *)
Ltac reads :=
  unfold contributions_at, voterHasVoted_at, voteWeight_at, votes_at in *;
  cbn [contributions voterHasVoted voteWeight votes set_counters set_campaign
       set_balance set_contributions record_vote set_owner] in *.

Lemma failed_excluded st campaignId :
  dormant_inv st -> statusIs (campaign_at st campaignId) Failed = true -> False.
Proof.
  intros Hd Hs. unfold statusIs in Hs. apply bool_decide_eq_true in Hs.
  destruct (Hd campaignId) as (_ & _ & Hne). exact (Hne Hs).
Qed.

Lemma exec_entries_inv e c st st' out :
  dormant_inv st ->
  entries_inv st -> exec e c st = Ok (st', out) -> entries_inv st'.
Proof.
  intros Hd Hinv H j a x. exec_cases H; cbn [fst snd].
  all: try (exfalso; eapply failed_excluded; eassumption).
  all: try exact (Hinv j a x).
  - (* contribute *)
    storage. case_decide as Hk; [|exact (Hinv j a x)].
    injection Hk as <- <-. intros Hin.
    apply elem_of_app in Hin as [Hin|Hin]; [exact (Hinv _ _ _ Hin)|].
    apply list_elem_of_singleton in Hin as ->. simpl.
    split; [reflexivity|]. apply N.ltb_lt. assumption.
Qed.

Lemma exec_listed_inv e c st st' out :
  dormant_inv st ->
  listed_inv st -> exec e c st = Ok (st', out) -> listed_inv st'.
Proof.
  intros Hd Hinv H j a. exec_cases H; cbn [fst snd].
  all: try (exfalso; eapply failed_excluded; eassumption).
  all: storage.
  all: try (repeat case_decide; subst; simpl; try congruence; exact (Hinv _ a)).
  - (* contribute *)
    destruct (targetAmount _ <=? _); repeat case_decide; subst; simpl;
      try congruence; try exact (Hinv _ a).
    all: try (match goal with Hk : (_, _) = (_, _) |- _ => injection Hk as <- end).
    all: intros Hne; apply elem_of_app;
      first [ right; apply list_elem_of_singleton; reflexivity
            | left; apply Hinv; exact Hne ].
Qed.

Lemma exec_voters_inv e c st st' out :
  dormant_inv st ->
  voters_inv st -> exec e c st = Ok (st', out) -> voters_inv st'.
Proof.
  intros Hd Hinv H j a. exec_cases H; cbn [fst snd].
  all: try (exfalso; eapply failed_excluded; eassumption).
  all: try exact (Hinv j a).
  - (* contribute *)
    intros Hv. destruct (Hinv j a Hv) as (first & rest & Hc & Hw).
    storage. case_decide as Hk.
    + injection Hk as <- <-. exists first, (rest ++ [newContribution e]).
      rewrite Hc. split; [reflexivity | exact Hw].
    + exists first, rest. split; assumption.
  - (* vote, closing *)
    reads. rewrite !lookup_insert. case_decide as Hk.
    + injection Hk as <- <-. intros _. simpl.
      match goal with Hl : default [] _ = ?f :: ?r |- _ => exists f, r end.
      split; [assumption | reflexivity].
    + exact (Hinv j a).
  - (* vote *)
    reads. rewrite !lookup_insert. case_decide as Hk.
    + injection Hk as <- <-. intros _. simpl.
      match goal with Hl : default [] _ = ?f :: ?r |- _ => exists f, r end.
      split; [assumption | reflexivity].
    + exact (Hinv j a).
Qed.

Lemma weightTotal_insert_fresh m k w campaignId :
  m !! k = None ->
  weightTotal (<[k := w]> m) campaignId =
  (if decide (k.1 = campaignId) then w else 0) + weightTotal m campaignId.
Proof.
  intros Hk. unfold weightTotal.
  rewrite map_fold_insert_L; [| |exact Hk].
  - destruct (decide (k.1 = campaignId)); lia.
  - intros j1 j2 z1 z2 y _ _ _.
    destruct (decide (j1.1 = campaignId)), (decide (j2.1 = campaignId)); lia.
Qed.

Lemma exec_weights_inv e c st st' out :
  weights_inv st -> exec e c st = Ok (st', out) -> weights_inv st'.
Proof.
  intros (Hnone & Htotal) H. exec_cases H; cbn [fst snd].
  all: try (split; [exact Hnone|];
            intros j; storage; repeat case_decide; subst; simpl; exact (Htotal _)).
  all: try (split; [exact Hnone|]; intros j; storage;
            destruct (targetAmount _ <=? _); case_decide; subst; simpl;
            exact (Htotal _)).
  all: match goal with Hn : negb _ = true |- _ => apply negb_true_iff in Hn end.
  all: match goal with Hn : voterHasVoted_at _ _ _ = false |- _ =>
         pose proof (Hnone _ _ Hn) as Hfresh end.
  all: split;
    [ intros j who; reads; rewrite !lookup_insert; case_decide;
      [discriminate | apply Hnone]
    | intros j; storage; reads;
      rewrite (weightTotal_insert_fresh _ _ _ j Hfresh); cbn [fst];
      repeat case_decide; subst; simpl; rewrite ?Htotal; try congruence; lia ].
Qed.

Lemma exec_consistent e c st st' out :
  consistent st -> exec e c st = Ok (st', out) -> consistent st'.
Proof.
  intros (H1 & H2 & H3 & H4 & H5 & H6 & H7 & H8 & H9 & H10) H.
  unfold consistent.
  pose proof (exec_ledger_inv _ _ _ _ _ H1 H).
  pose proof (exec_backers_inv _ _ _ _ _ H2 H).
  pose proof (exec_backed_inv _ _ _ _ _ H3 H).
  pose proof (exec_dormant_inv _ _ _ _ _ H4 H).
  pose proof (exec_solvent_inv _ _ _ _ _ H5 H).
  pose proof (exec_unborn_inv _ _ _ _ _ (proj1 (proj2 H5)) H6 H).
  pose proof (exec_entries_inv _ _ _ _ _ H4 H7 H).
  pose proof (exec_listed_inv _ _ _ _ _ H4 H8 H).
  pose proof (exec_voters_inv _ _ _ _ _ H4 H9 H).
  pose proof (exec_weights_inv _ _ _ _ _ H10 H).
  tauto.
Qed.

Lemma init_consistent deployer : consistent (init deployer).
Proof.
  unfold consistent.
  assert (Hc : forall j, campaign_at (init deployer) j = zeroCampaign) by reflexivity.
  assert (Hk : forall j a, contributions_at (init deployer) j a = []) by reflexivity.
  repeat match goal with |- _ /\ _ => split end.
  - intros j. reflexivity.
  - intros j. reflexivity.
  - intros j b Hin. rewrite Hc in Hin. apply elem_of_nil in Hin. destruct Hin.
  - intros j. rewrite Hc. repeat split; first [reflexivity | discriminate].
  - split; [reflexivity|]. split; [reflexivity|]. intros j Hj. discriminate Hj.
  - intros j _. split; reflexivity.
  - intros j a x Hin. rewrite Hk in Hin. apply elem_of_nil in Hin. destruct Hin.
  - intros j a Hne. rewrite Hk in Hne. congruence.
  - intros j a Hv. discriminate Hv.
  - split; [intros j a _; reflexivity | intros j; reflexivity].
Qed.

Lemma reachable_consistent st : reachable st -> consistent st.
Proof.
  induction 1 as [d _|st e c st' out _ IH _ _ Hex].
  - apply init_consistent.
  - eapply exec_consistent; eassumption.
Qed.

Lemma steps_consistent st st' : steps st st' -> consistent st -> consistent st'.
Proof.
  induction 1 as [st|st e c st1 out st2 Hex _ IH]; intros Hc; [exact Hc|].
  apply IH. eapply exec_consistent; eassumption.
Qed.

(** * Existing campaigns across a transaction *)

Lemma sameTerms_refl c : sameTerms c c.
Proof. unfold sameTerms. tauto. Qed.

Lemma statusIs_true c s : statusIs c s = true -> status c = s.
Proof. unfold statusIs. apply bool_decide_eq_true. Qed.

Lemma exec_existing e c st st' out campaignId :
  consistent st ->
  campaignId < campaignIds st ->
  exec e c st = Ok (st', out) ->
  let old := campaign_at st campaignId in
  let new := campaign_at st' campaignId in
  campaignId < campaignIds st' /\
  sameTerms old new /\
  deadline new <= deadline old /\
  statusEdge (status old) (status new) /\
  (status old = Completed ->
   raisedAmount new = raisedAmount old /\
   fundsReleased new = fundsReleased old /\
   forall who, contributions_at st' campaignId who = contributions_at st campaignId who).
Proof.
  intros Hcons Hid H old new. subst old new.
  destruct Hcons as (_ & _ & _ & Hd & (_ & Hcount & _) & _).
  rename campaignId into j.
  exec_cases H; cbn [fst snd].
  all: try (exfalso; eapply failed_excluded; eassumption).
  all: cbn [campaignIds set_counters set_campaign set_balance set_contributions
            record_vote set_owner]; storage.
  all: repeat match goal with
         | Hs : statusIs _ _ = true |- _ => apply statusIs_true in Hs
         | Hb : _ && _ = true |- _ => apply andb_true_iff in Hb as [? ?]
         | Hl : (_ <=? _) = true |- _ => apply N.leb_le in Hl
         end.
  all: try match goal with
         | Hb : (votesForKeepRaised ?c <? votesForAllOrNothing ?c) = true |- _ =>
             exfalso; destruct (Hd campaignId) as (Hv1 & Hv2 & _);
             rewrite Hv1, Hv2 in Hb; discriminate Hb
         end.
  all: try (rewrite Hcount in *; rewrite N.mod_small by lia).
  all: repeat case_decide; subst; try lia.
  all: try destruct (targetAmount _ <=? _).
  all: unfold sameTerms, statusEdge; simpl.
  all: repeat match goal with |- _ /\ _ => split end.
  all: try reflexivity; try lia; try assumption.
  all: try (intuition congruence).
  all: intros _; repeat split; intros who; storage;
    rewrite decide_False by congruence; reflexivity.
Qed.

Lemma statusEdge_trans s1 s2 s3 : statusEdge s1 s2 -> statusEdge s2 s3 -> statusEdge s1 s3.
Proof. unfold statusEdge. intros H1 H2. destruct s1, s2, s3; intuition congruence. Qed.

Lemma sameTerms_trans c1 c2 c3 : sameTerms c1 c2 -> sameTerms c2 c3 -> sameTerms c1 c3.
Proof. unfold sameTerms. intuition congruence. Qed.

Lemma steps_existing st st' campaignId :
  steps st st' ->
  consistent st ->
  campaignId < campaignIds st ->
  let old := campaign_at st campaignId in
  let new := campaign_at st' campaignId in
  campaignId < campaignIds st' /\
  sameTerms old new /\
  deadline new <= deadline old /\
  statusEdge (status old) (status new) /\
  (status old = Completed ->
   status new = Completed /\
   raisedAmount new = raisedAmount old /\
   fundsReleased new = fundsReleased old /\
   forall who, contributions_at st' campaignId who = contributions_at st campaignId who).
Proof.
  induction 1 as [st|st e c st1 out st2 Hex _ IH]; intros Hc Hid; cbv zeta.
  - split; [exact Hid|]. split; [apply sameTerms_refl|]. split; [lia|].
    split; [left; reflexivity|]. intros Hs. repeat split. exact Hs.
  - pose proof (exec_existing _ _ _ _ _ campaignId Hc Hid Hex)
      as (Hid1 & Ht1 & Hd1 & He1 & Hf1).
    pose proof (exec_consistent _ _ _ _ _ Hc Hex) as Hc1.
    destruct (IH Hc1 Hid1) as (Hid2 & Ht2 & Hd2 & He2 & Hf2).
    split; [exact Hid2|]. split; [eapply sameTerms_trans; eassumption|].
    split; [lia|]. split; [eapply statusEdge_trans; eassumption|].
    intros Hs. destruct (Hf1 Hs) as (Hr1 & Hfr1 & Hk1).
    assert (Hs1 : status (campaign_at st1 campaignId) = Completed).
    { unfold statusEdge in He1. rewrite Hs in He1. intuition congruence. }
    destruct (Hf2 Hs1) as (Hs2 & Hr2 & Hfr2 & Hk2).
    split; [exact Hs2|]. split; [congruence|]. split; [congruence|].
    intros who. rewrite Hk2. apply Hk1.
Qed.

Lemma exec_never_expired e c st st' out :
  (forall j, status (campaign_at st j) <> Expired) ->
  exec e c st = Ok (st', out) ->
  forall j, status (campaign_at st' j) <> Expired.
Proof.
  intros Hinv H j. exec_cases H; cbn [fst snd]; storage.
  all: try destruct (targetAmount _ <=? _).
  all: repeat case_decide; subst; simpl; first [discriminate | apply Hinv].
Qed.

Lemma run_steps txs st st' : run txs st = Ok st' -> steps st st'.
Proof.
  revert st. induction txs as [|[e c] txs IH]; intros st H; simpl in H.
  - injection H as <-. apply steps_refl.
  - apply bind_Ok in H as ([st1 out] & Hex & H).
    eapply steps_step; [exact Hex | apply IH; exact H].
Qed.

(** * Creating campaigns *)

(** X1.  Campaign ids are dense: in every reachable state [campaignCount]
    equals the id counter, and a successful [createCampaign] returns that
    count as the new id, raises both by one, writes the terms it was given
    (creator, name, description, target, deadline, drive link, allowed modes
    and contribution bounds) into the new slot with status Active and the
    voting deadline 7 days after the deadline, and leaves every other
    campaign and all contributions as they were. *)
Theorem createCampaign_assigns_next_id (st : State) :
  reachable st ->
  campaignCount st = campaignIds st /\
  forall e n d t dl link modes mn mx st' newId,
    createCampaign e n d t dl link modes mn mx st = Ok (st', newId) ->
    newId = campaignCount st /\
    campaignIds st' = newId + 1 /\
    campaignCount st' = newId + 1 /\
    (let c := campaign_at st' newId in
     creator c = msg_sender e /\ name c = n /\ description c = d /\
     targetAmount c = t /\ deadline c = dl /\ originalDeadline c = dl /\
     driveLink c = link /\
     votingDeadline c = dl + VOTING_DURATION /\ allowedModes c = modes /\
     minContribution c = mn /\ maxContribution c = mx /\ status c = Active) /\
    (forall j, j <> newId -> campaign_at st' j = campaign_at st j) /\
    contributions st' = contributions st.
Proof.
  intros Hst.
  destruct (reachable_consistent st Hst) as (_ & _ & _ & _ & (_ & Hcount & _) & _).
  split; [exact Hcount|].
  intros e n d t dl link modes mn mx st' newId H.
  unfold createCampaign in H. peel H. subst.
  cbn [campaignIds campaignCount contributions set_counters set_campaign].
  rewrite Hcount in *. rewrite N.mod_small by lia.
  storage. rewrite decide_True by reflexivity. simpl.
  repeat match goal with |- _ /\ _ => split end; try reflexivity.
  intros j Hj. storage. rewrite decide_False by congruence. reflexivity.
Qed.

(** The second campaign of a registry gets id 1 and holds the description
    and the drive link it was created with. *)
Lemma createCampaign_assigns_next_id_witness :
  let st := stateAfter fundedTrace in
  let r := createCampaign (callBy alice 0 3000) "Bridge" "A footbridge" 500 9000
             "folder" [Donation; Reward] 1 50 st in
  campaignCount st = 1 /\
  exists st', r = Ok (st', 1) /\ campaignIds st' = 2 /\ campaignCount st' = 2 /\
    description (campaign_at st' 1) = "A footbridge"%string /\
    driveLink (campaign_at st' 1) = "folder"%string.
Proof.
  intros st r.
  destruct (createCampaign_assigns_next_id st fundedTrace_reachable) as (Hcount & Hnew).
  assert (Hc : campaignCount st = 1) by by_eval.
  split; [exact Hc|].
  destruct r as [[st' newId]| | |] eqn:Hr; try (vm_compute in Hr; discriminate Hr).
  destruct (Hnew _ _ _ _ _ _ _ _ _ _ _ Hr) as (Hid & Hids & Hcnt & Hterms & _).
  rewrite Hc in Hid. subst newId. cbv zeta in Hterms.
  destruct Hterms as (_ & _ & Hdesc & _ & _ & _ & Hlink & _).
  exists st'. repeat split; assumption.
Defined.

Lemma length_zero_ltb (s : string) :
  (0 <? String.length s)%nat = negb (bool_decide (s = EmptyString)).
Proof. destruct s; reflexivity. Qed.

(** X2.  [createCampaign] accepts a request exactly when the target is
    positive, the deadline lies strictly after the block time, the name is
    not empty, at least one funding mode is given, min <= max, and neither
    deadline + 7 days nor the campaign count overflows a uint256.  The
    checks run in that order, each with its own revert reason. *)
Theorem createCampaign_checks (e : Env) (n d : string) (t dl : N) (link : string)
    (modes : list FundingMode) (mn mx : N) (st : State) :
  let r := createCampaign e n d t dl link modes mn mx st in
  ((exists res, r = Ok res) <->
   0 < t /\ block_timestamp e < dl /\ n <> EmptyString /\ modes <> [] /\
   mn <= mx /\ dl + VOTING_DURATION < UINT256_MODULUS /\
   campaignCount st + 1 < UINT256_MODULUS) /\
  (t = 0 -> r = Revert "Target amount must be greater than 0") /\
  (0 < t -> dl <= block_timestamp e -> r = Revert "Deadline must be in the future") /\
  (0 < t -> block_timestamp e < dl -> n = EmptyString ->
   r = Revert "Name cannot be empty") /\
  (0 < t -> block_timestamp e < dl -> n <> EmptyString -> modes = [] ->
   r = Revert "Must specify at least one funding mode") /\
  (0 < t -> block_timestamp e < dl -> n <> EmptyString -> modes <> [] -> mx < mn ->
   r = Revert "Min contribution must be <= max").
Proof.
  intros r. subst r. unfold createCampaign, checked_add.
  rewrite length_zero_ltb.
  destruct (N.ltb_spec 0 t) as [Ht|Ht]; simpl.
  2:{ split; [split; [intros [res Hres]; discriminate Hres | lia]|].
      repeat split; intros; first [reflexivity | lia]. }
  destruct (N.ltb_spec (block_timestamp e) dl) as [Hdl|Hdl]; simpl.
  2:{ split; [split; [intros [res Hres]; discriminate Hres | lia]|].
      repeat split; intros; first [reflexivity | lia]. }
  destruct (decide (n = EmptyString)) as [Hn|Hn].
  { rewrite bool_decide_eq_true_2 by exact Hn. simpl.
    split; [split; [intros [res Hres]; discriminate Hres | tauto]|].
    repeat split; intros; first [reflexivity | lia | congruence]. }
  rewrite bool_decide_eq_false_2 by exact Hn. simpl.
  destruct modes as [|m0 modes]; simpl.
  { split; [split; [intros [res Hres]; discriminate Hres | tauto]|].
    repeat split; intros; first [reflexivity | lia | congruence]. }
  destruct (N.leb_spec mn mx) as [Hm|Hm]; simpl.
  2:{ split; [split; [intros [res Hres]; discriminate Hres | lia]|].
      repeat split; intros; first [reflexivity | lia | congruence]. }
  split.
  - destruct (N.ltb_spec (dl + VOTING_DURATION) UINT256_MODULUS) as [H1|H1]; simpl.
    2:{ split; [intros [res Hres]; discriminate Hres | lia]. }
    destruct (N.ltb_spec (campaignCount st + 1) UINT256_MODULUS) as [H2|H2]; simpl.
    2:{ split; [intros [res Hres]; discriminate Hres | lia]. }
    split; [intros _|intros _; eexists; reflexivity].
    repeat split; first [assumption | discriminate].
  - repeat split; intros; first [lia | congruence].
Qed.

(** An empty name and an empty list of modes are refused; a good request is
    taken. *)
Lemma createCampaign_checks_witness :
  let st := init admin in
  let e := callBy founder 0 1000 in
  createCampaign e EmptyString "d" 10 5000 "l" [Donation] 1 2 st
    = Revert "Name cannot be empty" /\
  createCampaign e "Well" "d" 10 5000 "l" [] 1 2 st
    = Revert "Must specify at least one funding mode" /\
  exists res, createCampaign e "Well" "d" 10 5000 "l" [Donation] 1 2 st = Ok res.
Proof.
  intros st e. split; [|split].
  - apply (createCampaign_checks e EmptyString "d" 10 5000 "l" [Donation] 1 2 st);
      first [reflexivity | by_eval].
  - apply (createCampaign_checks e "Well" "d" 10 5000 "l" [] 1 2 st);
      first [reflexivity | discriminate | by_eval].
  - apply (createCampaign_checks e "Well" "d" 10 5000 "l" [Donation] 1 2 st).
    repeat split; first [discriminate | by_eval].
Defined.

(** X3.  [contribute] and [startVoting] do not check that the campaign
    exists, but a slot that was never created has deadline 0 and creator 0:
    in every reachable state a contribution to such an id fails at any
    positive block time, and [startVoting] on it fails for every caller
    other than the zero address. *)
Theorem unborn_campaign_rejects (st : State) (e : Env) (campaignId : N) :
  reachable st ->
  campaignIds st <= campaignId ->
  (0 < block_timestamp e ->
   exists reason, contribute e campaignId st = Revert reason) /\
  (msg_sender e <> 0 ->
   startVoting e campaignId st = Revert "Only creator can start voting").
Proof.
  intros Hst Hid.
  destruct (reachable_consistent st Hst) as (_ & _ & _ & _ & _ & Hu & _).
  destruct (Hu campaignId Hid) as [Hd Hc]. split.
  - intros Hnow. unfold contribute. rewrite Hd.
    destruct (statusIs _ Active); simpl; [|eexists; reflexivity].
    destruct (0 <? msg_value e); simpl; [|eexists; reflexivity].
    rewrite (proj2 (N.leb_gt _ _) Hnow). simpl. eexists; reflexivity.
  - intros Hsender. unfold startVoting. rewrite Hc.
    rewrite (proj2 (N.eqb_neq _ _) Hsender). reflexivity.
Qed.

(** Campaign 7 of a registry holding one campaign. *)
Lemma unborn_campaign_rejects_witness :
  let st := stateAfter fundedTrace in
  contribute (callBy alice 50 3000) 7 st = Revert "Campaign has ended" /\
  startVoting (callBy alice 0 3000) 7 st = Revert "Only creator can start voting".
Proof.
  intros st.
  destruct (unborn_campaign_rejects st (callBy alice 50 3000) 7 fundedTrace_reachable)
    as ([reason Hr] & _); [by_eval|by_eval|].
  destruct (unborn_campaign_rejects st (callBy alice 0 3000) 7 fundedTrace_reachable)
    as (_ & Hs); [by_eval|].
  split; [|apply Hs; by_eval].
  rewrite Hr. vm_compute in Hr. injection Hr as <-. reflexivity.
Defined.

(** * Refreshing the status *)

(** X4.  [updateCampaignStatus] on an existing campaign never fails.  It
    moves an Active campaign whose deadline has been reached to UnderVoting,
    whatever was raised and whatever modes are allowed, and changes nothing
    else; in every other case it leaves the storage as it is.  Repeating the
    call at the same block time changes nothing more. *)
Theorem updateCampaignStatus_effect (e : Env) (campaignId : N) (st : State) :
  campaignId < campaignIds st ->
  let c := campaign_at st campaignId in
  (status c = Active -> deadline c <= block_timestamp e ->
   updateCampaignStatus e campaignId st
     = Ok (set_campaign campaignId (set_status UnderVoting c) st, [])) /\
  (status c <> Active \/ block_timestamp e < deadline c ->
   updateCampaignStatus e campaignId st = Ok (st, [])) /\
  (forall st' out,
     updateCampaignStatus e campaignId st = Ok (st', out) ->
     updateCampaignStatus e campaignId st' = Ok (st', [])).
Proof.
  intros Hid c.
  assert (Hex : (campaignId <? campaignIds st) = true) by (apply N.ltb_lt; exact Hid).
  unfold updateCampaignStatus, statusIs. rewrite Hex. simpl. fold c.
  split; [|split].
  - intros Hs Hd. rewrite Hs, (proj2 (N.leb_le _ _) Hd). reflexivity.
  - intros [Hs|Hd].
    + rewrite bool_decide_eq_false_2 by exact Hs. reflexivity.
    + rewrite (proj2 (N.leb_gt _ _) Hd), andb_false_r. reflexivity.
  - intros st' out H.
    destruct (bool_decide (status c = Active) && (deadline c <=? block_timestamp e))
      eqn:Hb; injection H as <- <-.
    + cbn [campaignIds set_campaign]. rewrite Hex. simpl. storage.
      rewrite decide_True by reflexivity. reflexivity.
    + rewrite Hex. simpl. fold c. rewrite Hb. reflexivity.
Qed.

(** A campaign past its deadline with 400 of 1000 raised goes to voting; the
    second call is a no-op. *)
Lemma updateCampaignStatus_effect_witness :
  let st := stateAfter shortTrace in
  let e := callBy bob 0 6000 in
  let st' := set_campaign 0 (set_status UnderVoting (campaign_at st 0)) st in
  updateCampaignStatus e 0 st = Ok (st', []) /\
  updateCampaignStatus e 0 st' = Ok (st', []).
Proof.
  intros st e st'.
  destruct (updateCampaignStatus_effect e 0 st) as (Hmove & _ & Hagain); [by_eval|].
  assert (H1 : updateCampaignStatus e 0 st = Ok (st', [])).
  { apply Hmove; by_eval. }
  split; [exact H1 | exact (Hagain st' [] H1)].
Defined.

(** * The life of an existing campaign *)

(** X5.  Over any sequence of successful transactions from a reachable state,
    the status of an existing campaign either stays or moves along Active ->
    Completed, Active -> UnderVoting or UnderVoting -> Completed; nothing
    ever leaves Completed. *)
Theorem status_follows_edges (st st' : State) (campaignId : N) :
  reachable st ->
  steps st st' ->
  campaignId < campaignIds st ->
  statusEdge (status (campaign_at st campaignId)) (status (campaign_at st' campaignId)).
Proof.
  intros Hst Hsteps Hid.
  exact (proj1 (proj2 (proj2 (proj2
    (steps_existing st st' campaignId Hsteps (reachable_consistent st Hst) Hid))))).
Qed.

(** Active, then UnderVoting after the deadline, then Completed by
    [finalizeCampaign]. *)
Lemma status_follows_edges_witness :
  let st := stateAfter shortTrace in
  let st' := stateAfter (shortTrace ++ [(callBy bob 0 6000, UpdateCampaignStatus 0);
                                        (callBy bob 0 700000, FinalizeCampaign 0)]) in
  status (campaign_at st 0) = Active /\
  status (campaign_at st' 0) = Completed /\
  statusEdge (status (campaign_at st 0)) (status (campaign_at st' 0)).
Proof.
  intros st st'. split; [by_eval|]. split; [by_eval|].
  apply (status_follows_edges st st' 0 shortTrace_reachable); [|by_eval].
  apply (run_steps [(callBy bob 0 6000, UpdateCampaignStatus 0);
                    (callBy bob 0 700000, FinalizeCampaign 0)]).
  by_eval.
Defined.

(** X6.  No campaign is ever Expired: in every reachable state the status of
    every slot is one of the other values of the enum. *)
Theorem status_never_expired (st : State) :
  reachable st -> forall campaignId, status (campaign_at st campaignId) <> Expired.
Proof.
  induction 1 as [d _|st e c st' out _ IH _ _ Hex].
  - intros j. discriminate.
  - exact (exec_never_expired _ _ _ _ _ IH Hex).
Qed.

(** Long after its deadline, with nobody calling, a missed campaign still
    reads Active, not Expired. *)
Lemma status_never_expired_witness :
  status (campaign_at (stateAfter shortTrace) 0) = Active /\
  status (campaign_at (stateAfter shortTrace) 0) <> Expired.
Proof.
  split; [by_eval|].
  exact (status_never_expired (stateAfter shortTrace) shortTrace_reachable 0).
Defined.

(** X7.  A Completed campaign is frozen: whatever transactions follow, its
    status, [raisedAmount], [fundsReleased] flag and contribution entries
    stay as they are.  In particular a campaign completed by reaching its
    target, whose funds were not released, keeps them unreleased for good. *)
Theorem completed_campaign_frozen (st st' : State) (campaignId : N) :
  reachable st ->
  steps st st' ->
  campaignId < campaignIds st ->
  status (campaign_at st campaignId) = Completed ->
  status (campaign_at st' campaignId) = Completed /\
  raisedAmount (campaign_at st' campaignId) = raisedAmount (campaign_at st campaignId) /\
  fundsReleased (campaign_at st' campaignId) = fundsReleased (campaign_at st campaignId) /\
  forall who, getContributions st' campaignId who = getContributions st campaignId who.
Proof.
  intros Hst Hsteps Hid Hs.
  exact (proj2 (proj2 (proj2 (proj2
    (steps_existing st st' campaignId Hsteps (reachable_consistent st Hst) Hid)))) Hs).
Qed.

(** The funded campaign after a vote was opened and cast, its status
    refreshed and a release attempted in vain. *)
Lemma completed_campaign_frozen_witness :
  let st := stateAfter fundedTrace in
  let st' := stateAfter (fundedTrace ++ [(callBy founder 0 3000, StartVoting 0);
                                         (callBy alice 0 3100, CastVote 0 Reward);
                                         (callBy bob 0 700000, UpdateCampaignStatus 0)]) in
  status (campaign_at st' 0) = Completed /\
  raisedAmount (campaign_at st' 0) = 1000 /\
  fundsReleased (campaign_at st' 0) = false.
Proof.
  intros st st'.
  destruct (completed_campaign_frozen st st' 0 fundedTrace_reachable)
    as (Hs & Hr & Hf & _); [|by_eval|by_eval|].
  - apply (run_steps [(callBy founder 0 3000, StartVoting 0);
                      (callBy alice 0 3100, CastVote 0 Reward);
                      (callBy bob 0 700000, UpdateCampaignStatus 0)]).
    by_eval.
  - split; [exact Hs|]. split; [rewrite Hr; by_eval | rewrite Hf; by_eval].
Defined.

(** X8.  The terms of an existing campaign are fixed at creation: creator,
    name, description, target, original deadline, drive link, allowed modes,
    voting deadline and contribution bounds never change, the id stays
    valid, and the effective deadline can only move earlier. *)
Theorem campaign_terms_immutable (st st' : State) (campaignId : N) :
  reachable st ->
  steps st st' ->
  campaignId < campaignIds st ->
  campaignId < campaignIds st' /\
  sameTerms (campaign_at st campaignId) (campaign_at st' campaignId) /\
  deadline (campaign_at st' campaignId) <= deadline (campaign_at st campaignId).
Proof.
  intros Hst Hsteps Hid.
  destruct (steps_existing st st' campaignId Hsteps (reachable_consistent st Hst) Hid)
    as (H1 & H2 & H3 & _).
  split; [exact H1|]. split; [exact H2 | exact H3].
Qed.

(** Reaching the target at time 2000 pulls the deadline from 5000 to 2000;
    the original deadline stays 5000. *)
Lemma campaign_terms_immutable_witness :
  let st := stateAfter [openCampaign 1000] in
  let st' := stateAfter fundedTrace in
  originalDeadline (campaign_at st' 0) = 5000 /\
  deadline (campaign_at st 0) = 5000 /\
  deadline (campaign_at st' 0) = 2000 /\
  deadline (campaign_at st' 0) <= deadline (campaign_at st 0).
Proof.
  intros st st'.
  destruct (campaign_terms_immutable st st' 0) as (_ & Hterms & Hd).
  - scenario_reachable.
  - apply (run_steps [(callBy alice 1000 2000, Contribute 0)]). by_eval.
  - by_eval.
  - destruct Hterms as (_ & _ & _ & _ & Ho & _).
    split; [rewrite Ho; by_eval|]. split; [by_eval|]. split; [by_eval | exact Hd].
Defined.

(** * Money held *)

(** X9.  The contract is solvent: in every reachable state its ether balance
    is exactly the sum, over all campaigns, of the [raisedAmount] of those
    whose funds have not been released; so what any one campaign raised is
    covered by the balance. *)
Theorem balance_is_held_total (st : State) :
  reachable st ->
  balance st = heldTotal (campaigns st) /\
  forall campaignId,
    fundsReleased (campaign_at st campaignId) = false ->
    raisedAmount (campaign_at st campaignId) <= balance st.
Proof.
  intros Hst. destruct (reachable_solvent_inv st Hst) as (Hbal & _).
  split; [symmetry; exact Hbal|].
  intros j Hf. pose proof (held_le_heldTotal (campaigns st) j) as Hle.
  fold (campaign_at st j) in Hle. unfold held in Hle. rewrite Hf in Hle. lia.
Qed.

(** After 1000 was raised and released, the balance is back to 0. *)
Lemma balance_is_held_total_witness :
  let st := stateAfter missedTrace in
  let st' := stateAfter (missedTrace ++ [(callBy bob 0 700000, FinalizeCampaign 0)]) in
  (balance st = 1000 /\ raisedAmount (campaign_at st 0) <= balance st) /\
  (balance st' = 0 /\ heldTotal (campaigns st') = 0).
Proof.
  intros st st'. split.
  - destruct (balance_is_held_total st missedTrace_reachable) as (_ & Hcover).
    split; [by_eval | apply Hcover; by_eval].
  - destruct (balance_is_held_total st') as (Hbal & _); [scenario_reachable|].
    split; [by_eval | rewrite <- Hbal; by_eval].
Defined.

(** * The backers array *)

(** X10.  In every reachable state [getCampaignBackers] returns [backers]
    as stored, one address per contribution made, in order: no read runs
    out of bounds, no entry is filtered out and no zero address is
    padded in. *)
Theorem getCampaignBackers_returns_backers (st : State) (campaignId : N) :
  reachable st ->
  getCampaignBackers st campaignId = Ok (backers (campaign_at st campaignId)).
Proof.
  intros Hst. apply getCampaignBackers_all.
  - apply (reachable_backers_inv st Hst).
  - intros b Hin. exact (reachable_backed_inv st Hst campaignId b Hin).
Qed.

Lemma getCampaignBackers_returns_backers_witness :
  getCampaignBackers (stateAfter tieTrace) 0 = Ok [alice; alice; bob].
Proof.
  rewrite (getCampaignBackers_returns_backers (stateAfter tieTrace) 0 tieTrace_reachable).
  by_eval.
Defined.

(** * Votes *)

(** X11.  A voter votes at most once per campaign: after a successful [vote],
    whatever transactions follow (also when the creator reopens the voting),
    every further [vote] of the same caller on the same campaign reverts,
    with "Already voted" whenever the voting is open and within its window. *)
Theorem voter_votes_once (e e2 : Env) (campaignId : N) (m m2 : FundingMode)
    (st st1 st2 : State) (out : list Transfer) :
  vote e campaignId m st = Ok (st1, out) ->
  steps st1 st2 ->
  msg_sender e2 = msg_sender e ->
  exists reason,
    vote e2 campaignId m2 st2 = Revert reason /\
    (votingEnabled (campaign_at st2 campaignId) = true ->
     block_timestamp e2 <= votingEndTime (campaign_at st2 campaignId) ->
     reason = "Already voted"%string).
Proof.
  intros H Hsteps Hsender.
  apply vote_Ok in H as (first & rest & _ & _ & _ & _ & _ & _ & Hflag & _).
  assert (Hv : voterHasVoted_at st1 campaignId (msg_sender e) = true).
  { unfold voterHasVoted_at. rewrite Hflag, lookup_insert_eq. reflexivity. }
  destruct (steps_keep_cast_vote _ _ _ _ Hsteps Hv) as (Hv2 & _).
  unfold vote. rewrite Hsender, Hv2.
  destruct (votingEnabled (campaign_at st2 campaignId)); simpl.
  - destruct (block_timestamp e2 <=? votingEndTime (campaign_at st2 campaignId))
      eqn:Hw; simpl.
    + eexists; split; [reflexivity|]. intros _ _. reflexivity.
    + eexists; split; [reflexivity|]. intros _ Hle.
      apply N.leb_le in Hle. congruence.
  - eexists; split; [reflexivity|]. intros Hen. discriminate Hen.
Qed.

(** Alice votes, the vote closes, the founder reopens it: Alice is refused. *)
Lemma voter_votes_once_witness :
  let st := stateAfter fourBackersTrace in
  let st1 := stateOf (vote (callBy alice 0 2500) 0 Reward st) st in
  let st2 := stateOf (startVoting (callBy founder 0 2600) 0 st1) st1 in
  votingEnabled (campaign_at st2 0) = true /\
  vote (callBy alice 0 2700) 0 Debit st2 = Revert "Already voted".
Proof.
  intros st st1 st2. split; [by_eval|].
  destruct (voter_votes_once (callBy alice 0 2500) (callBy alice 0 2700) 0 Reward Debit
              st st1 st2 [])
    as (reason & Hr & Hwhy); [by_eval| |reflexivity|].
  - apply (steps_step st1 (callBy founder 0 2600) (StartVoting 0) st2 []);
      [by_eval | apply steps_refl].
  - rewrite Hr, Hwhy; [reflexivity | by_eval | by_eval].
Defined.

(** X13.  In every reachable state the [totalVotes] of a campaign is the sum
    of the weights recorded for its voters, that is, an amount of wei. *)
Theorem totalVotes_is_weight_sum (st : State) :
  reachable st ->
  forall campaignId,
    totalVotes (campaign_at st campaignId) = weightTotal (voteWeight st) campaignId.
Proof.
  intros Hst.
  destruct (reachable_consistent st Hst)
    as (_ & _ & _ & _ & _ & _ & _ & _ & _ & (_ & Htotal)).
  exact Htotal.
Qed.

(** Two votes of weight 10: [totalVotes] is 20. *)
Lemma totalVotes_is_weight_sum_witness :
  totalVotes (campaign_at (stateAfter tieTrace) 0) = 20 /\
  weightTotal (voteWeight (stateAfter tieTrace)) 0 = 20.
Proof.
  pose proof (totalVotes_is_weight_sum (stateAfter tieTrace) tieTrace_reachable 0) as H.
  split; [by_eval | rewrite <- H; by_eval].
Defined.

(** X14.  [getVoteStats] reports (0, 0, 0) for every existing campaign in
    every reachable state, however many votes were cast: it reads the two
    counters that [vote] never touches.  For an id never created it reverts. *)
Theorem getVoteStats_always_zero (st : State) (campaignId : N) :
  reachable st ->
  getVoteStats st campaignId =
    if campaignId <? campaignIds st then Ok (0, 0, 0)
    else Revert "Campaign does not exist".
Proof.
  intros Hst. destruct (reachable_dormant_inv st Hst campaignId) as (Hv1 & Hv2 & _).
  unfold getVoteStats. destruct (campaignId <? campaignIds st); simpl; [|reflexivity].
  rewrite Hv1, Hv2. reflexivity.
Qed.

Lemma getVoteStats_always_zero_witness :
  totalVotes (campaign_at (stateAfter tieTrace) 0) = 20 /\
  getVoteStats (stateAfter tieTrace) 0 = Ok (0, 0, 0).
Proof.
  split; [by_eval|].
  rewrite (getVoteStats_always_zero (stateAfter tieTrace) 0 tieTrace_reachable).
  by_eval.
Defined.

(** * Contributions *)

(** X15.  What a successful [contribute] changes: the ether sent is added to
    the balance; the campaign becomes Completed with its deadline pulled to
    the block time exactly when the new [raisedAmount] reaches the target,
    and otherwise stays Active with its deadline; no other campaign, no
    other backer's entries and no vote record is touched. *)
Theorem contribute_effect (e : Env) (campaignId : N) (st st' : State)
    (out : list Transfer) :
  contribute e campaignId st = Ok (st', out) ->
  let c := campaign_at st campaignId in
  let c' := campaign_at st' campaignId in
  balance st' = balance st + msg_value e /\
  (targetAmount c <= raisedAmount c + msg_value e ->
   status c' = Completed /\ deadline c' = block_timestamp e) /\
  (raisedAmount c + msg_value e < targetAmount c ->
   status c' = Active /\ deadline c' = deadline c) /\
  (forall j, j <> campaignId -> campaign_at st' j = campaign_at st j) /\
  (forall j who, (j, who) <> (campaignId, msg_sender e) ->
     getContributions st' j who = getContributions st j who) /\
  voterHasVoted st' = voterHasVoted st /\
  voteWeight st' = voteWeight st /\
  votes st' = votes st /\
  totalVotes c' = totalVotes c /\
  votingEnabled c' = votingEnabled c.
Proof.
  intros H c c'. subst c c'. unfold contribute in H. peel H. subst.
  match goal with Hs : statusIs _ _ = true |- _ => apply statusIs_true in Hs end.
  storage. rewrite decide_True by reflexivity.
  split; [reflexivity|]. split; [|split; [|split; [|split]]].
  - intros Hle. rewrite (proj2 (N.leb_le _ _) Hle). split; reflexivity.
  - intros Hlt. rewrite (proj2 (N.leb_gt _ _) Hlt). simpl. split; [assumption|reflexivity].
  - intros j Hj. storage. rewrite decide_False by congruence. reflexivity.
  - intros j who Hk. unfold getContributions. storage.
    rewrite decide_False by congruence. reflexivity.
  - destruct (targetAmount _ <=? _); repeat split.
Qed.

(** 400 of 1000 leaves the campaign Active; 1000 of 1000 completes it at the
    time of the contribution. *)
Lemma contribute_effect_witness :
  let st := stateAfter [openCampaign 1000] in
  let partial := stateOf (contribute (callBy alice 400 2000) 0 st) st in
  let full := stateOf (contribute (callBy alice 1000 2000) 0 st) st in
  (status (campaign_at partial 0) = Active /\ deadline (campaign_at partial 0) = 5000) /\
  (status (campaign_at full 0) = Completed /\ deadline (campaign_at full 0) = 2000).
Proof.
  intros st partial full. split.
  - destruct (contribute_effect (callBy alice 400 2000) 0 st partial [])
      as (_ & _ & Hactive & _); [by_eval|].
    destruct Hactive as [Hs Hd]; [by_eval|].
    split; [exact Hs | rewrite Hd; by_eval].
  - destruct (contribute_effect (callBy alice 1000 2000) 0 st full [])
      as (_ & Hdone & _); [by_eval|].
    destruct Hdone as [Hs Hd]; [by_eval|].
    split; [exact Hs | rewrite Hd; reflexivity].
Defined.

(** * Finalizing and refunding *)

(** X17.  Why [finalizeCampaign] fails, in a reachable state: for an id never
    created, "Campaign does not exist"; else up to and including the voting
    deadline, "Voting period not ended"; else for a status other than
    UnderVoting, "Campaign not in voting state".  Its fourth check never
    fires: a campaign UnderVoting has never been released, so no call
    reverts with "Funds already released". *)
Theorem finalizeCampaign_failures (st : State) (e : Env) (campaignId : N) :
  reachable st ->
  let c := campaign_at st campaignId in
  let r := finalizeCampaign e campaignId st in
  (campaignIds st <= campaignId -> r = Revert "Campaign does not exist") /\
  (campaignId < campaignIds st -> block_timestamp e <= votingDeadline c ->
   r = Revert "Voting period not ended") /\
  (campaignId < campaignIds st -> votingDeadline c < block_timestamp e ->
   status c <> UnderVoting -> r = Revert "Campaign not in voting state") /\
  (status c = UnderVoting -> fundsReleased c = false) /\
  r <> Revert "Funds already released".
Proof.
  intros Hst c r. subst r.
  destruct (reachable_solvent_inv st Hst) as (_ & _ & Hrel).
  assert (Hfresh : status c = UnderVoting -> fundsReleased c = false).
  { intros Hs. destruct (fundsReleased c) eqn:Hf; [|reflexivity].
    destruct (Hrel campaignId Hf) as [Hcompleted _]. fold c in Hcompleted. congruence. }
  unfold finalizeCampaign, statusIs. fold c.
  split; [|split; [|split; [|split]]].
  - intros Hid. rewrite (proj2 (N.ltb_ge _ _) Hid). reflexivity.
  - intros Hid Hd. rewrite (proj2 (N.ltb_lt _ _) Hid). simpl.
    rewrite (proj2 (N.ltb_ge _ _) Hd). reflexivity.
  - intros Hid Hd Hs. rewrite (proj2 (N.ltb_lt _ _) Hid). simpl.
    rewrite (proj2 (N.ltb_lt _ _) Hd). simpl.
    rewrite bool_decide_eq_false_2 by exact Hs. reflexivity.
  - exact Hfresh.
  - destruct (campaignId <? campaignIds st); simpl; [|discriminate].
    destruct (votingDeadline c <? block_timestamp e); simpl; [|discriminate].
    destruct (decide (status c = UnderVoting)) as [Hs|Hs].
    + rewrite bool_decide_eq_true_2 by exact Hs. simpl.
      rewrite (Hfresh Hs). simpl.
      destruct (_ && _); [discriminate|].
      unfold checked_mul, checked_sub, transfer.
      repeat (match goal with
              | |- context [if ?b then _ else _] => destruct b
              end; simpl; try discriminate).
    + rewrite bool_decide_eq_false_2 by exact Hs. discriminate.
Qed.

(** A missed campaign before and after its status was refreshed. *)
Lemma finalizeCampaign_failures_witness :
  finalizeCampaign (callBy bob 0 6000) 0 (stateAfter missedTrace)
    = Revert "Voting period not ended" /\
  finalizeCampaign (callBy bob 0 700000) 0 (stateAfter shortTrace)
    = Revert "Campaign not in voting state" /\
  finalizeCampaign (callBy bob 0 700000) 5 (stateAfter shortTrace)
    = Revert "Campaign does not exist".
Proof.
  split; [|split].
  - apply (finalizeCampaign_failures (stateAfter missedTrace) (callBy bob 0 6000) 0
             missedTrace_reachable); by_eval.
  - apply (finalizeCampaign_failures (stateAfter shortTrace) (callBy bob 0 700000) 0
             shortTrace_reachable); by_eval.
  - apply (finalizeCampaign_failures (stateAfter shortTrace) (callBy bob 0 700000) 5
             shortTrace_reachable); by_eval.
Defined.

Lemma refundLoop_marked l acc :
  refundLoop (map markRefunded l) acc = Ok (acc, map markRefunded l).
Proof.
  induction l as [|c l IH]; simpl; [reflexivity|]. rewrite IH. reflexivity.
Qed.

(** X18.  A refund is paid once: after a successful [requestRefund] all
    entries of the caller are marked, and a second request of the same
    caller on the same campaign reverts with "No refund available". *)
Theorem requestRefund_pays_once (e e2 : Env) (campaignId : N) (st st' : State)
    (out : list Transfer) :
  requestRefund e campaignId st = Ok (st', out) ->
  msg_sender e2 = msg_sender e ->
  (forall c, c ∈ getContributions st' campaignId (msg_sender e) -> refunded c = true) /\
  requestRefund e2 campaignId st' = Revert "No refund available".
Proof.
  intros H Hsender.
  pose proof (requestRefund_Ok _ _ _ _ _ H) as (Hid & Hs & _ & _ & _ & Hmarked & _).
  assert (Hids : campaignIds st' = campaignIds st /\
                 status (campaign_at st' campaignId) = Failed).
  { unfold requestRefund in H. peel H. subst. simpl. storage.
    rewrite decide_True by reflexivity. simpl.
    split; [reflexivity|]. apply statusIs_true. assumption. }
  destruct Hids as [Hids Hs'].
  split.
  - intros c Hin. unfold getContributions in Hin. rewrite Hmarked in Hin.
    apply list_elem_of_fmap in Hin as (c0 & -> & _). reflexivity.
  - unfold requestRefund, statusIs.
    rewrite Hids, (proj2 (N.ltb_lt _ _) Hid), Hs', Hsender, Hmarked. simpl.
    rewrite refundLoop_marked. reflexivity.
Qed.

(** Alice is refunded her 400 from the failed campaign; her second request is
    refused. *)
Lemma requestRefund_pays_once_witness :
  let st' := stateOf (requestRefund (callBy alice 0 9000) 0 failedState) failedState in
  requestRefund (callBy alice 0 9000) 0 failedState = Ok (st', [(alice, 400)]) /\
  requestRefund (callBy alice 0 9100) 0 st' = Revert "No refund available".
Proof.
  intros st'.
  assert (Hrun : requestRefund (callBy alice 0 9000) 0 failedState
                 = Ok (st', [(alice, 400)])) by by_eval.
  split; [exact Hrun|].
  apply (requestRefund_pays_once (callBy alice 0 9000) (callBy alice 0 9100) 0
           failedState st' [(alice, 400)] Hrun).
  reflexivity.
Defined.

(** * What voting does not touch *)

Lemma vote_frame e campaignId m st st' out :
  vote e campaignId m st = Ok (st', out) ->
  out = [] /\ balance st' = balance st /\ owner st' = owner st /\
  campaignIds st' = campaignIds st /\
  contributions st' = contributions st /\
  forall j,
    let c := campaign_at st j in
    let c' := campaign_at st' j in
    sameTerms c c' /\ status c' = status c /\ deadline c' = deadline c /\
    raisedAmount c' = raisedAmount c /\ fundsReleased c' = fundsReleased c /\
    votesForAllOrNothing c' = votesForAllOrNothing c /\
    votesForKeepRaised c' = votesForKeepRaised c /\
    backers c' = backers c /\ backersCount c' = backersCount c.
Proof.
  intros H. unfold vote in H. peel H; subst.
  all: repeat match goal with |- _ /\ _ => split end; try reflexivity.
  all: intros j; storage; repeat case_decide; subst; unfold sameTerms; simpl;
    try congruence; repeat split.
Qed.

(** X20.  Voting moves no money and decides nothing: a successful [vote]
    makes no transfer and leaves the balance, every contribution entry and,
    for every campaign, its status, deadline, [raisedAmount], [fundsReleased]
    flag, backers and terms as they were; hence what [finalizeCampaign] pays
    out, or the way it fails, is the same after the vote as before it. *)
Theorem vote_decides_no_payout (e : Env) (campaignId : N) (m : FundingMode)
    (st st' : State) (out : list Transfer) :
  vote e campaignId m st = Ok (st', out) ->
  out = [] /\ balance st' = balance st /\
  contributions st' = contributions st /\
  (forall j,
     status (campaign_at st' j) = status (campaign_at st j) /\
     raisedAmount (campaign_at st' j) = raisedAmount (campaign_at st j) /\
     fundsReleased (campaign_at st' j) = fundsReleased (campaign_at st j) /\
     deadline (campaign_at st' j) = deadline (campaign_at st j) /\
     backers (campaign_at st' j) = backers (campaign_at st j)) /\
  (forall e2 j,
     payouts (finalizeCampaign e2 j st') = payouts (finalizeCampaign e2 j st)).
Proof.
  intros H.
  destruct (vote_frame _ _ _ _ _ _ H) as (Hout & Hbal & Hown & Hids & Hcontr & Hframe).
  split; [exact Hout|]. split; [exact Hbal|]. split; [exact Hcontr|]. split.
  - intros j. destruct (Hframe j) as (_ & Hs & Hd & Hr & Hf & _ & _ & Hb & _).
    repeat split; assumption.
  - intros e2 j.
    destruct (Hframe j) as (Ht & Hs & _ & Hr & Hf & Hv1 & Hv2 & _).
    destruct Ht as (Hcr & _ & _ & Htg & _ & _ & _ & Hvd & _).
    unfold finalizeCampaign, statusIs, checked_mul, checked_sub, transfer, require.
    cbn [raisedAmount targetAmount creator set_isAllOrNothing set_status
         set_fundsReleased balance owner set_campaign set_balance].
    rewrite Hids, Hvd, Hs, Hf, Hv1, Hv2, Hr, Htg, Hcr, ?Hbal, ?Hown.
    repeat (match goal with
            | |- context [if ?b then _ else _] => destruct b
            end; cbn [mbind result_bind require payouts andb negb owner balance
                      set_balance set_campaign]; rewrite ?Hbal, ?Hown;
            try reflexivity).
Qed.

(** After Bob's vote, finalizing the campaign fails exactly as before it. *)
Lemma vote_decides_no_payout_witness :
  let st := stateAfter pairTrace in
  let st' := stateOf (vote (callBy bob 0 2600) 0 Debit st) st in
  balance st' = balance st /\
  payouts (finalizeCampaign (callBy founder 0 700000) 0 st')
    = Revert "Campaign not in voting state".
Proof.
  intros st st'.
  destruct (vote_decides_no_payout (callBy bob 0 2600) 0 Debit st st' [])
    as (_ & Hbal & _ & _ & Hsame); [by_eval|].
  split; [exact Hbal|].
  rewrite Hsame. by_eval.
Defined.

(** * Ether in and out *)

Lemma exec_raised_grows e c st st' out j :
  dormant_inv st ->
  exec e c st = Ok (st', out) ->
  raisedAmount (campaign_at st j) <= raisedAmount (campaign_at st' j).
Proof.
  intros Hd H. exec_cases H; cbn [fst snd].
  all: try (exfalso; eapply failed_excluded; eassumption).
  all: storage; try destruct (targetAmount _ <=? _);
    repeat case_decide; subst; simpl; lia.
Qed.

Lemma steps_raised_grow st st' j :
  steps st st' ->
  consistent st ->
  raisedAmount (campaign_at st j) <= raisedAmount (campaign_at st' j).
Proof.
  induction 1 as [st|st e c st1 out st2 Hex _ IH]; intros Hc; [lia|].
  pose proof (exec_raised_grows _ _ _ _ _ j (proj1 (proj2 (proj2 (proj2 Hc)))) Hex).
  pose proof (IH (exec_consistent _ _ _ _ _ Hc Hex)). lia.
Qed.

(** X21.  Nothing takes money back out of a campaign's tally: over any
    transactions from a reachable state the [raisedAmount] of every campaign
    only grows, also after its funds were released. *)
Theorem raisedAmount_never_decreases (st st' : State) :
  reachable st ->
  steps st st' ->
  forall campaignId,
    raisedAmount (campaign_at st campaignId) <= raisedAmount (campaign_at st' campaignId).
Proof.
  intros Hst Hsteps j.
  exact (steps_raised_grow st st' j Hsteps (reachable_consistent st Hst)).
Qed.

(** Released: the 1000 raised still reads 1000 while the balance is 0. *)
Lemma raisedAmount_never_decreases_witness :
  let st := stateAfter missedTrace in
  let st' := stateAfter (missedTrace ++ [(callBy bob 0 700000, FinalizeCampaign 0)]) in
  raisedAmount (campaign_at st 0) = 1000 /\ balance st' = 0 /\
  raisedAmount (campaign_at st 0) <= raisedAmount (campaign_at st' 0).
Proof.
  intros st st'. split; [by_eval|]. split; [by_eval|].
  apply (raisedAmount_never_decreases st st' missedTrace_reachable).
  apply (run_steps [(callBy bob 0 700000, FinalizeCampaign 0)]). by_eval.
Defined.

(** X22.  Ether leaves the contract only through [finalizeCampaign]: in a
    reachable state every other successful call makes no transfer and does
    not lower the balance, and a successful [finalizeCampaign] pays the fee
    to the owner and the rest to the creator, which together are exactly the
    campaign's [raisedAmount] and exactly what the balance loses. *)
Theorem only_finalize_pays (st st' : State) (e : Env) (c : Call)
    (out : list Transfer) :
  reachable st ->
  exec e c st = Ok (st', out) ->
  (out = [] /\ balance st <= balance st') \/
  (exists campaignId,
     c = FinalizeCampaign campaignId /\
     let cam := campaign_at st campaignId in
     let fee := raisedAmount cam * platformFee / 1000 in
     out = [(creator cam, raisedAmount cam - fee); (owner st, fee)] /\
     (raisedAmount cam - fee) + fee = raisedAmount cam /\
     balance st' + raisedAmount cam = balance st).
Proof.
  intros Hst H. pose proof (reachable_dormant_inv st Hst) as Hd.
  exec_cases H; cbn [fst snd].
  all: try (exfalso; eapply failed_excluded; eassumption).
  all: try (left; split; [reflexivity | cbn [balance set_counters set_campaign
              set_balance set_contributions record_vote set_owner]; lia]).
  right. exists campaignId. split; [reflexivity|].
  cbn [balance owner creator raisedAmount set_campaign set_balance
       set_isAllOrNothing set_status set_fundsReleased] in *.
  split; [reflexivity|]. split; lia.
Qed.

(** The release of 1000: 975 and 25, and the balance falls from 1000 to 0. *)
Lemma only_finalize_pays_witness :
  let st := stateAfter missedTrace in
  let st' := stateOf (exec (callBy bob 0 700000) (FinalizeCampaign 0) st) st in
  exec (callBy bob 0 700000) (FinalizeCampaign 0) st
    = Ok (st', [(founder, 975); (admin, 25)]) /\
  balance st' + 1000 = balance st.
Proof.
  intros st st'.
  assert (Hrun : exec (callBy bob 0 700000) (FinalizeCampaign 0) st
                 = Ok (st', [(founder, 975); (admin, 25)])) by by_eval.
  split; [exact Hrun|].
  destruct (only_finalize_pays st st' _ _ _ missedTrace_reachable Hrun)
    as [[Hnil _]|(j & Hj & _ & _ & Hbal)]; [discriminate Hnil|].
  injection Hj as <-. exact Hbal.
Defined.

(** * The ledger under both readings of line 191 *)

Lemma execAs_push e c st : execAs PushEntry e c st = exec e c st.
Proof. destruct c; reflexivity. Qed.

Lemma reachableAs_push st : reachableAs PushEntry st <-> reachable st.
Proof.
  split.
  - induction 1 as [d Hd|st e c st' out _ IH He Hc Hex].
    + apply reachable_init. exact Hd.
    + rewrite execAs_push in Hex. eapply reachable_step; eassumption.
  - induction 1 as [d Hd|st e c st' out _ IH He Hc Hex].
    + apply reachableAs_init. exact Hd.
    + rewrite <- execAs_push in Hex. eapply reachableAs_step; eassumption.
Qed.

(** What line 191 leaves in the slot, whichever way it is read. *)
Lemma recordContribution_Ok reading e slot entries :
  recordContribution reading e slot = Ok entries ->
  entries <> [] /\
  ((forall c, c ∈ slot -> refunded c = false) ->
   entriesTotal entries = entriesTotal slot + msg_value e) /\
  ((forall c, c ∈ slot -> refunded c = false /\ 0 < amount c) ->
   0 < msg_value e ->
   forall c, c ∈ entries -> refunded c = false /\ 0 < amount c).
Proof.
  destruct reading; simpl.
  - intros [= <-]. split; [|split].
    + intros Hnil. apply app_eq_nil in Hnil as [_ Hnil]. discriminate Hnil.
    + intros _. rewrite entriesTotal_app. simpl. lia.
    + intros Hall Hpos c Hin. apply elem_of_app in Hin as [Hin|Hin].
      * exact (Hall c Hin).
      * apply list_elem_of_singleton in Hin as ->. simpl. split; [reflexivity | exact Hpos].
  - destruct slot as [|c0 rest].
    + intros [= <-]. split; [discriminate|]. split.
      * intros _. simpl. lia.
      * intros _ Hpos c Hin. apply list_elem_of_singleton in Hin as ->. simpl.
        split; [reflexivity | exact Hpos].
    + intros H. apply bind_Ok in H as (sum & Hsum & H).
      apply checked_add_Ok in Hsum as [-> _]. injection H as <-.
      split; [discriminate|]. split.
      * intros Hall. simpl. rewrite (Hall c0) by left. lia.
      * intros Hall Hpos c Hin. apply elem_of_cons in Hin as [->|Hin].
        -- destruct (Hall c0) as [Hr Ha]; [left|]. simpl. split; [exact Hr | lia].
        -- apply Hall. right. exact Hin.
Qed.

(** A successful [contributeAs], with the new state written out. *)
Lemma contributeAs_Ok reading e campaignId st st' out :
  contributeAs reading e campaignId st = Ok (st', out) ->
  let c := campaign_at st campaignId in
  let grown :=
    set_backers (backers c ++ [msg_sender e])
      (set_backersCount (backersCount c + 1)
         (set_raisedAmount (raisedAmount c + msg_value e) c)) in
  exists entries,
    recordContribution reading e (contributions_at st campaignId (msg_sender e))
      = Ok entries /\
    status c = Active /\ 0 < msg_value e /\ block_timestamp e <= deadline c /\
    out = [] /\
    st' = set_balance (balance st + msg_value e)
            (set_campaign campaignId
               (if targetAmount c <=? raisedAmount c + msg_value e
                then set_deadline (block_timestamp e) (set_status Completed grown)
                else grown)
               (set_contributions campaignId (msg_sender e) entries st)).
Proof.
  intros H c grown. subst c grown. unfold contributeAs in H.
  apply bind_Ok in H as (? & Hs & H). apply require_Ok in Hs.
  apply bind_Ok in H as (? & Hv & H). apply require_Ok in Hv.
  apply bind_Ok in H as (? & Hd & H). apply require_Ok in Hd.
  apply bind_Ok in H as (entries & Hrec & H).
  apply bind_Ok in H as (? & Hr & H). apply checked_add_Ok in Hr as [-> _].
  apply bind_Ok in H as (? & Hn & H). apply checked_add_Ok in Hn as [-> _].
  cbv zeta in H. injection H as <- <-.
  exists entries. apply statusIs_true in Hs. apply N.ltb_lt in Hv. apply N.leb_le in Hd.
  repeat split; assumption.
Qed.

Lemma contributeAs_push e campaignId st :
  contributeAs PushEntry e campaignId st = contribute e campaignId st.
Proof. reflexivity. Qed.

(** ** Invariants under both readings *)

Lemma exec_voted_inv e c st st' out :
  dormant_inv st -> entries_inv st ->
  voted_inv st -> exec e c st = Ok (st', out) -> voted_inv st'.
Proof.
  intros Hd He Hinv H j a. exec_cases H; cbn [fst snd].
  all: try (exfalso; eapply failed_excluded; eassumption).
  all: try exact (Hinv j a).
  - (* contribute *)
    intros Hv. destruct (Hinv j a Hv) as [Hne Hw].
    split; [|exact Hw]. storage. case_decide as Hk; [|exact Hne].
    intros Hnil. apply app_eq_nil in Hnil as [_ Hnil]. discriminate Hnil.
  - (* vote, closing *)
    reads. rewrite !lookup_insert. case_decide as Hk.
    + injection Hk as <- <-. intros _. simpl.
      match goal with Hl : default [] _ = ?f :: ?r |- _ =>
        rewrite Hl; split; [discriminate|];
        apply (He campaignId (msg_sender e) f);
        unfold contributions_at; rewrite Hl; left end.
    + exact (Hinv j a).
  - (* vote *)
    reads. rewrite !lookup_insert. case_decide as Hk.
    + injection Hk as <- <-. intros _. simpl.
      match goal with Hl : default [] _ = ?f :: ?r |- _ =>
        rewrite Hl; split; [discriminate|];
        apply (He campaignId (msg_sender e) f);
        unfold contributions_at; rewrite Hl; left end.
    + exact (Hinv j a).
Qed.

Lemma contributeAs_sound reading e campaignId st st' out :
  sound st -> contributeAs reading e campaignId st = Ok (st', out) -> sound st'.
Proof.
  intros (Hl & Hd & He & Hli & Hv) H.
  apply contributeAs_Ok in H as (entries & Hrec & Hs & Hpos & Hdl & -> & ->).
  apply recordContribution_Ok in Hrec as (Hne & Htotal & Hall).
  specialize (Htotal (fun c Hin => proj1 (He campaignId (msg_sender e) c Hin))).
  specialize (Hall (He campaignId (msg_sender e)) Hpos).
  unfold sound. repeat match goal with |- _ /\ _ => split end.
  - (* ledger *)
    intros j. storage.
    pose proof (nonRefundedTotal_set_contributions st campaignId (msg_sender e)
                  entries j) as HT.
    rewrite Htotal in HT.
    destruct (targetAmount _ <=? _); case_decide; subst; simpl;
      rewrite ?Hl in *; lia.
  - (* dormant *)
    intros j. storage. destruct (Hd j) as (Hv1 & Hv2 & Hst).
    destruct (targetAmount _ <=? _); case_decide; subst; simpl;
      repeat split; first [assumption | discriminate].
  - (* entries *)
    intros j a x. storage. case_decide as Hk; [|exact (He j a x)].
    exact (Hall x).
  - (* listed *)
    intros j a. storage.
    destruct (targetAmount _ <=? _); repeat case_decide; subst; simpl;
      try congruence; try exact (Hli _ a).
    all: try (match goal with Hk : (_, _) = (_, _) |- _ => injection Hk as <- end).
    all: intros Hnn; apply elem_of_app;
      first [ right; apply list_elem_of_singleton; reflexivity
            | left; apply Hli; exact Hnn ].
  - (* voted *)
    intros j a Hvoted. destruct (Hv j a Hvoted) as [Hnn Hw].
    split; [|exact Hw]. storage. case_decide; [exact Hne | exact Hnn].
Qed.

Lemma execAs_sound reading e c st st' out :
  sound st -> execAs reading e c st = Ok (st', out) -> sound st'.
Proof.
  intros Hs H.
  assert (Hcases : (exists campaignId, c = Contribute campaignId) \/
                   exec e c st = Ok (st', out)).
  { destruct c; first [right; exact H | left; eexists; reflexivity]. }
  destruct Hcases as [[j ->]|Hex].
  - exact (contributeAs_sound _ _ _ _ _ _ Hs H).
  - destruct Hs as (Hl & Hd & He & Hli & Hv). unfold sound.
    pose proof (exec_ledger_inv _ _ _ _ _ Hl Hex).
    pose proof (exec_dormant_inv _ _ _ _ _ Hd Hex).
    pose proof (exec_entries_inv _ _ _ _ _ Hd He Hex).
    pose proof (exec_listed_inv _ _ _ _ _ Hd Hli Hex).
    pose proof (exec_voted_inv _ _ _ _ _ Hd He Hv Hex).
    tauto.
Qed.

Lemma init_sound deployer : sound (init deployer).
Proof.
  assert (Hc : forall j, campaign_at (init deployer) j = zeroCampaign) by reflexivity.
  assert (Hk : forall j a, contributions_at (init deployer) j a = []) by reflexivity.
  unfold sound. repeat match goal with |- _ /\ _ => split end.
  - intros j. reflexivity.
  - intros j. rewrite Hc. repeat split; first [reflexivity | discriminate].
  - intros j a x Hin. rewrite Hk in Hin. apply elem_of_nil in Hin. destruct Hin.
  - intros j a Hne. rewrite Hk in Hne. congruence.
  - intros j a Hv. discriminate Hv.
Qed.

Lemma reachableAs_sound reading st : reachableAs reading st -> sound st.
Proof.
  induction 1 as [d _|st e c st' out _ IH _ _ Hex].
  - apply init_sound.
  - eapply execAs_sound; eassumption.
Qed.

Lemma runAs_reachable reading txs st st' :
  reachableAs reading st -> Forall wf_tx txs -> runAs reading txs st = Ok st' ->
  reachableAs reading st'.
Proof.
  intros Hst Hwf. revert st Hst.
  induction Hwf as [|[e c] txs [He Hc] _ IH]; intros st Hst H; simpl in H.
  - injection H as <-. exact Hst.
  - apply bind_Ok in H as ([st1 out] & Hex & H).
    apply (IH st1); [|exact H].
    eapply reachableAs_step; eassumption.
Qed.

Lemma stateAfterAs_reachable reading txs :
  Forall wf_tx txs ->
  (exists st, runAs reading txs (init admin) = Ok st) ->
  reachableAs reading (stateAfterAs reading txs).
Proof.
  intros Hwf [st Hrun]. unfold stateAfterAs. rewrite Hrun.
  eapply runAs_reachable; [|exact Hwf|exact Hrun].
  apply reachableAs_init. reflexivity.
Qed.

Ltac scenario_reachableAs :=
  apply stateAfterAs_reachable;
  [ repeat constructor; vm_compute; reflexivity
  | eexists; vm_compute; reflexivity ].

Lemma runAs_steps reading txs st st' :
  runAs reading txs st = Ok st' -> stepsAs reading st st'.
Proof.
  revert st. induction txs as [|[e c] txs IH]; intros st H; simpl in H.
  - injection H as <-. apply stepsAs_refl.
  - apply bind_Ok in H as ([st1 out] & Hex & H).
    eapply stepsAs_step; [exact Hex | apply IH; exact H].
Qed.

(** * The ledger (C1) *)


Lemma savingsTrace_reachable reading :
  reachableAs reading (stateAfterAs reading savingsTrace).
Proof. destruct reading; scenario_reachableAs. Qed.


(** * Vote weight (C4)

    [vote] takes the weight from entry 0 of the voter's array.  Whether that
    is the voter's non-refunded total, as C4 has it, depends on what line 191
    stores: under the push reading a second contribution adds a second
    entry, which [vote] does not read; under the other reading every slot
    holds a single entry, whose amount is the total. *)

Lemma execAs_keeps_cast_vote reading e c st st' out i a :
  execAs reading e c st = Ok (st', out) ->
  voterHasVoted_at st i a = true ->
  voterHasVoted_at st' i a = true /\
  voteWeight_at st' i a = voteWeight_at st i a.
Proof.
  intros H Hvoted.
  assert (Hcases : (exists campaignId, c = Contribute campaignId) \/
                   exec e c st = Ok (st', out)).
  { destruct c; first [right; exact H | left; eexists; reflexivity]. }
  destruct Hcases as [[j ->]|Hex].
  - apply contributeAs_Ok in H as (entries & _ & _ & _ & _ & _ & ->).
    split; [exact Hvoted | reflexivity].
  - destruct (exec_keeps_cast_vote _ _ _ _ _ i a Hex Hvoted) as (Hv & Hw & _).
    split; assumption.
Qed.

Lemma stepsAs_keep_cast_vote reading st st' i a :
  stepsAs reading st st' ->
  voterHasVoted_at st i a = true ->
  voterHasVoted_at st' i a = true /\ voteWeight_at st' i a = voteWeight_at st i a.
Proof.
  induction 1 as [st|st e c st1 out st2 Hex _ IH]; intros Hvoted.
  - split; [exact Hvoted | reflexivity].
  - destruct (execAs_keeps_cast_vote _ _ _ _ _ _ i a Hex Hvoted) as (Hv1 & Hw1).
    destruct (IH Hv1) as (Hv2 & Hw2). split; [exact Hv2 | congruence].
Qed.

(** X19.  The weight recorded by a successful [vote] is the [amount] field of
    entry 0 of the voter's contribution array at the moment of voting: no
    other entry of the array is read, and neither is the [refunded] flag.
    Once recorded, the weight is not changed by any later transaction, in
    particular not by contributions the voter makes after voting, whichever
    way line 191 is read. *)
Theorem vote_weight_is_first_entry (reading : Line191) (e : Env) (campaignId : N)
    (m : FundingMode) (st st' : State) (out : list Transfer) :
  vote e campaignId m st = Ok (st', out) ->
  exists first rest,
    getContributions st campaignId (msg_sender e) = first :: rest /\
    voteWeight_at st' campaignId (msg_sender e) = amount first /\
    forall st'',
      stepsAs reading st' st'' ->
      voteWeight_at st'' campaignId (msg_sender e) = amount first.
Proof.
  intros H.
  apply vote_Ok in H
    as (first & rest & Hc & _ & _ & _ & _ & _ & Hflag & Hweight & _).
  assert (Hw : voteWeight_at st' campaignId (msg_sender e) = amount first).
  { unfold voteWeight_at. rewrite Hweight, lookup_insert_eq. reflexivity. }
  assert (Hv : voterHasVoted_at st' campaignId (msg_sender e) = true).
  { unfold voterHasVoted_at. rewrite Hflag, lookup_insert_eq. reflexivity. }
  exists first, rest. split; [exact Hc|]. split; [exact Hw|].
  intros st'' Hsteps.
  destruct (stepsAs_keep_cast_vote _ _ _ _ _ Hsteps Hv) as (_ & Heq). congruence.
Qed.

(** Alice holds one entry of 10 in a campaign that is still Active while its
    voting is open.  Her vote is recorded with weight 10; she then
    contributes 20 more, which leaves her two entries under one reading of
    line 191 and one entry of 30 under the other; her weight stays 10 under
    both. *)
Lemma vote_weight_is_first_entry_witness :
  let st := votingStorage [mkContribution 10 2000 false Donation] in
  let st' := stateOf (vote (callBy alice 0 2300) 0 Reward st) st in
  let later := (callBy alice 20 2400, Contribute 0) in
  let pushed := stateOf (execAs PushEntry later.1 later.2 st') st' in
  let added := stateOf (execAs AddToEntry later.1 later.2 st') st' in
  voteWeight_at st' 0 alice = 10 /\
  (map amount (getContributions pushed 0 alice) = [10; 20] /\
   voteWeight_at pushed 0 alice = 10) /\
  (map amount (getContributions added 0 alice) = [30] /\
   voteWeight_at added 0 alice = 10).
Proof.
  intros st st' later pushed added.
  assert (Hrun : vote (callBy alice 0 2300) 0 Reward st = Ok (st', [])) by by_eval.
  destruct (vote_weight_is_first_entry PushEntry _ _ _ _ _ _ Hrun)
    as (first & rest & Hc & Hw & HlaterP).
  destruct (vote_weight_is_first_entry AddToEntry _ _ _ _ _ _ Hrun)
    as (first' & rest' & Hc' & _ & HlaterA).
  assert (Hfirst : amount first = 10).
  { vm_compute in Hc. injection Hc as <- _. reflexivity. }
  assert (Hfirst' : amount first' = 10).
  { vm_compute in Hc'. injection Hc' as <- _. reflexivity. }
  split; [exact (eq_trans Hw Hfirst)|]. split.
  - split; [by_eval|]. rewrite <- Hfirst. apply HlaterP.
    apply (stepsAs_step PushEntry st' later.1 later.2 pushed []);
      [by_eval | apply stepsAs_refl].
  - split; [by_eval|]. rewrite <- Hfirst'. apply HlaterA.
    apply (stepsAs_step AddToEntry st' later.1 later.2 added []);
      [by_eval | apply stepsAs_refl].
Defined.

(** On a storage in which Alice's contribution array holds two entries, 10
    and 20, neither of them refunded, her vote is recorded with weight 10,
    the amount of entry 0, not with 30, the sum of her non-refunded
    amounts. *)
Lemma vote_weight_not_sum_of_entries :
  let st := votingStorage [mkContribution 10 2000 false Donation;
                           mkContribution 20 2100 false Donation] in
  let e := callBy alice 0 2300 in
  map refunded (getContributions st 0 alice) = [false; false] /\
  map amount (getContributions st 0 alice) = [10; 20] /\
  entriesTotal (getContributions st 0 alice) = 30 /\
  raisedAmount (campaign_at st 0) = 30 /\
  exists st',
    vote e 0 Reward st = Ok (st', []) /\
    voteWeight_at st' 0 alice = 10 /\
    voteWeight_at st' 0 alice <> entriesTotal (getContributions st 0 alice).
Proof.
  intros st e. split; [by_eval|]. split; [by_eval|]. split; [by_eval|].
  split; [by_eval|].
  eexists. split; [vm_compute; reflexivity|]. split; [by_eval|].
  vm_compute. discriminate.
Qed.

(** Whether a slot ever holds two entries depends on line 191.  After Alice
    has contributed 10 and then 20, her array holds the two entries under the
    push reading and her vote weighs 10, not her total; under the other
    reading it holds one entry of 30 and her vote weighs 30, her total. *)
Lemma repeated_contribution_weight :
  let pushed := stateAfterAs PushEntry twiceTrace in
  let added := stateAfterAs AddToEntry twiceTrace in
  let e := callBy alice 0 2300 in
  (map amount (getContributions pushed 0 alice) = [10; 20] /\
   voteWeight_at (stateOf (vote e 0 Reward pushed) pushed) 0 alice = 10) /\
  (map amount (getContributions added 0 alice) = [30] /\
   voteWeight_at (stateOf (vote e 0 Reward added) added) 0 alice = 30).
Proof. intros pushed added e. conj_eval. Qed.

Lemma exec_keeps_lengths e c st st' out :
  (forall j, c <> Contribute j) ->
  exec e c st = Ok (st', out) ->
  forall campaignId who,
    length (contributions_at st' campaignId who)
    = length (contributions_at st campaignId who).
Proof.
  intros Hno H j a. exec_cases H; cbn [fst snd].
  all: try reflexivity.
  - exfalso. exact (Hno _ eq_refl).
  - match goal with Hl : refundLoop _ _ = Ok _ |- _ =>
      apply refundLoop_Ok in Hl as (_ & Hr2 & _) end.
    storage. case_decide as Hk; [|reflexivity].
    injection Hk as <- <-. rewrite Hr2. apply length_map.
Qed.

Lemma reachableAs_single_inv st : reachableAs AddToEntry st -> single_inv st.
Proof.
  induction 1 as [d _|st e c st' out _ IH _ _ Hex].
  - intros j a.
    replace (contributions_at (init d) j a) with (@nil Contribution) by reflexivity.
    simpl. lia.
  - intros j a.
    assert (Hcases : (exists campaignId, c = Contribute campaignId) \/
                     (forall campaignId, c <> Contribute campaignId)).
    { destruct c; first [right; discriminate | left; eexists; reflexivity]. }
    destruct Hcases as [[i ->]|Hno].
    + apply contributeAs_Ok in Hex as (entries & Hrec & _ & _ & _ & _ & ->).
      storage. case_decide as Hk; [|apply IH].
      specialize (IH i (msg_sender e)). simpl in Hrec.
      destruct (contributions_at st i (msg_sender e)) as [|c0 rest].
      * injection Hrec as <-. simpl. lia.
      * apply bind_Ok in Hrec as (sum & _ & Hrec). injection Hrec as <-.
        exact IH.
    + assert (Hexec : exec e c st = Ok (st', out)).
      { destruct c; first [exact Hex | exfalso; exact (Hno _ eq_refl)]. }
      rewrite (exec_keeps_lengths _ _ _ _ _ Hno Hexec). apply IH.
Qed.

(** Under the second reading of line 191 the weight of a vote is the voter's
    non-refunded total, in every reachable state. *)
Lemma add_reading_weight_is_total (e : Env) (campaignId : N) (m : FundingMode)
    (st st' : State) (out : list Transfer) :
  reachableAs AddToEntry st ->
  vote e campaignId m st = Ok (st', out) ->
  voteWeight_at st' campaignId (msg_sender e)
  = entriesTotal (getContributions st campaignId (msg_sender e)).
Proof.
  intros Hst H.
  pose proof (reachableAs_single_inv st Hst campaignId (msg_sender e)) as Hone.
  destruct (reachableAs_sound AddToEntry st Hst) as (_ & _ & Hentries & _).
  apply vote_Ok in H
    as (first & rest & Hc & _ & _ & _ & _ & _ & _ & Hweight & _).
  unfold voteWeight_at, getContributions. rewrite Hweight, lookup_insert_eq. simpl.
  destruct (Hentries campaignId (msg_sender e) first) as [Hr _];
    [rewrite Hc; left|].
  rewrite Hc in Hone |- *. destruct rest; [|simpl in Hone; lia].
  simpl. rewrite Hr. lia.
Qed.

(** * Winner selection (C7) *)

(** C7, at a failing input.  Alice contributes 60 and 10, Bob 100; Alice votes
    Equity and Bob Donation, and they are the only voters.  Under either
    reading of line 191 Bob's vote carries the greater weight (100 against 60
    or 70), so Donation holds the strictly greatest accumulated weight; but
    [endVoting] walks [backers], where Alice occurs once per contribution,
    and adds her weight twice: Equity is tallied 120 or 140 against 100 and
    wins.  [totalVotes], which counts each vote once, is smaller than the
    tallies together. *)
Theorem repeat_contributor_tallied_twice (reading : Line191) :
  let st := stateAfterAs reading repeatTrace in
  let weightA := voteWeight_at st 0 alice in
  let weightB := voteWeight_at st 0 bob in
  let tally := modeTally st 0 (backers (campaign_at st 0)) in
  reachableAs reading st /\
  runAs reading repeatTrace (init admin) = Ok st /\
  voterHasVoted st = <[(0, alice) := true]> (<[(0, bob) := true]> ∅) /\
  votes st = <[(0, alice) := Equity]> (<[(0, bob) := Donation]> ∅) /\
  weightA = (match reading with PushEntry => 60 | AddToEntry => 70 end) /\
  weightB = 100 /\
  weightA < weightB /\
  backers (campaign_at st 0) = [alice; alice; bob] /\
  tally Equity = 2 * weightA /\
  tally Donation = weightB /\
  totalVotes (campaign_at st 0) = weightA + weightB /\
  votingEnabled (campaign_at st 0) = false /\
  currentMode (campaign_at st 0) = Equity.
Proof.
  intros st weightA weightB tally. subst st weightA weightB tally.
  destruct reading.
  - split; [scenario_reachableAs|]. conj_eval.
  - split; [scenario_reachableAs|]. conj_eval.
Qed.

(** * Voters and entries under both readings *)

(** X12.  In every reachable state, whichever way line 191 is read, whoever
    has the [voterHasVoted] flag set holds at least one contribution entry,
    is listed in [backers], and has a positive recorded weight. *)
Theorem voter_is_backer_with_weight (reading : Line191) (st : State)
    (campaignId who : N) :
  reachableAs reading st ->
  voterHasVoted_at st campaignId who = true ->
  getContributions st campaignId who <> [] /\
  who ∈ backers (campaign_at st campaignId) /\
  0 < voteWeight_at st campaignId who.
Proof.
  intros Hst Hv.
  destruct (reachableAs_sound reading st Hst) as (_ & _ & _ & Hlisted & Hvoted).
  destruct (Hvoted campaignId who Hv) as [Hne Hw].
  split; [exact Hne|]. split; [exact (Hlisted campaignId who Hne) | exact Hw].
Qed.

Lemma repeatTrace_reachable reading :
  reachableAs reading (stateAfterAs reading repeatTrace).
Proof. destruct reading; scenario_reachableAs. Qed.

(** Bob after his vote, under both readings. *)
Lemma voter_is_backer_with_weight_witness :
  (bob ∈ backers (campaign_at (stateAfterAs PushEntry repeatTrace) 0) /\
   0 < voteWeight_at (stateAfterAs PushEntry repeatTrace) 0 bob) /\
  (bob ∈ backers (campaign_at (stateAfterAs AddToEntry repeatTrace) 0) /\
   0 < voteWeight_at (stateAfterAs AddToEntry repeatTrace) 0 bob).
Proof.
  split.
  - destruct (voter_is_backer_with_weight PushEntry _ 0 bob
                (repeatTrace_reachable PushEntry)) as (_ & Hin & Hw); [by_eval|].
    split; assumption.
  - destruct (voter_is_backer_with_weight AddToEntry _ 0 bob
                (repeatTrace_reachable AddToEntry)) as (_ & Hin & Hw); [by_eval|].
    split; assumption.
Defined.

(** X16.  No refund is ever recorded and no entry is empty: in every
    reachable state, whichever way line 191 is read, each entry returned by
    [getContributions] has [refunded] false and a positive amount. *)
Theorem entries_positive_unrefunded (reading : Line191) (st : State)
    (campaignId who : N) :
  reachableAs reading st ->
  forall c, c ∈ getContributions st campaignId who ->
            refunded c = false /\ 0 < amount c.
Proof.
  intros Hst.
  destruct (reachableAs_sound reading st Hst) as (_ & _ & Hentries & _).
  exact (Hentries campaignId who).
Qed.

(** Alice's entries after contributing 150 and 250: two entries under one
    reading, one entry of 400 under the other, none refunded. *)
Lemma entries_positive_unrefunded_witness :
  let pushed := stateAfterAs PushEntry savingsTrace in
  let added := stateAfterAs AddToEntry savingsTrace in
  let second := mkContribution 250 2100 false Donation in
  let whole := mkContribution 400 2000 false Donation in
  getContributions pushed 0 alice = [mkContribution 150 2000 false Donation; second] /\
  (refunded second = false /\ 0 < amount second) /\
  getContributions added 0 alice = [whole] /\
  (refunded whole = false /\ 0 < amount whole).
Proof.
  intros pushed added second whole.
  split; [by_eval|]. split; [|split; [by_eval|]].
  - apply (entries_positive_unrefunded PushEntry pushed 0 alice
             (savingsTrace_reachable PushEntry) second).
    vm_compute. right. left.
  - apply (entries_positive_unrefunded AddToEntry added 0 alice
             (savingsTrace_reachable AddToEntry) whole).
    vm_compute. left.
Defined.
